(** * Contact-result encoding of the hydroelastic collision example

    A shallow embedding of [ContactResultMaker::CalcContactResults]
    (drake_ros_viz/examples/hydroelastic_collisions/hydroelastic_collisions.cpp)
    together with the properties of the message it fills in.

    Scalars are IEEE binary64 numbers (the kernel's primitive floats), the
    integer fields are [Z] with the C++ narrowing written out, the vectors of
    the message are lists updated in place by index, and every way the C++
    call can end without a message (an exception, a failed demand, an
    undefined conversion) is a [Fail] of the [result] monad. *)

From Stdlib Require Import ZArith QArith Qround Qabs Lia DecimalString.
From Stdlib Require Import Floats.PrimFloat Floats.SpecFloat Floats.FloatOps.
From Stdlib Require Floats.FloatAxioms DecimalZ DecimalPos.
From stdpp Require Import base list strings.

#[local] Set Warnings "-inexact-float".
#[local] Open Scope Z_scope.

(** ** Outcomes of a call *)

Inductive failure : Type :=
  | EngineError    (* the geometry engine threw *)
  | LogicError     (* the inspector does not know the identifier *)
  | LengthError    (* std::vector::resize beyond max_size *)
  | DrakeDemand    (* a bounds demand of a mesh accessor failed *)
  | Undefined.     (* behaviour the C++ standard leaves undefined *)

Inductive result (A : Type) : Type :=
  | Ok (a : A)
  | Fail (f : failure).

Arguments Ok {A} a.
Arguments Fail {A} f.

#[global] Instance result_ret : MRet result := fun A a => Ok a.

#[global] Instance result_bind : MBind result := fun A B k c =>
  match c with
  | Ok a => k a
  | Fail f => Fail f
  end.

(** ** Machine integers *)

Definition INT_MAX : Z := 2147483647.

(** [static_cast<int>] of a [size_t]: reduction modulo 2^32 into the signed
    32-bit range. *)
Definition static_cast_int (z : Z) : Z :=
  (z + 2147483648) mod 4294967296 - 2147483648.

Definition size {A : Type} (v : list A) : Z := Z.of_nat (length v).

(** ** Scalars *)

Definition double : Type := float.

(** The integer a finite double denotes once its fraction is discarded. *)
Definition truncate_spec_float (f : spec_float) : option Z :=
  match f with
  | S754_zero _ => Some 0
  | S754_finite s m e =>
      let mag := Z.shiftl (Z.pos m) e in
      Some (if s then - mag else mag)
  | S754_infinity _ | S754_nan => None
  end.

(** The implicit conversion of a [double] to [int64_t]: the value truncated
    toward zero; undefined when the truncated value does not fit. *)
Definition double_to_int64 (d : double) : result Z :=
  match truncate_spec_float (Prim2SF d) with
  | Some z =>
      if (- 9223372036854775808 <=? z) && (z <=? 9223372036854775807)
      then Ok z else Fail Undefined
  | None => Fail Undefined
  end.

(** The exact rational value of a finite double. *)
Definition Q_of_spec_float (f : spec_float) : option Q :=
  match f with
  | S754_zero _ => Some 0%Q
  | S754_finite s m e =>
      let mag :=
        if 0 <=? e then Qmake (Z.pos m * 2 ^ e) 1
        else Qmake (Z.pos m) (Z.to_pos (2 ^ (- e))) in
      Some (if s then Qopp mag else mag)
  | S754_infinity _ | S754_nan => None
  end.

Definition Q_of_double (d : double) : option Q := Q_of_spec_float (Prim2SF d).

(** ** Eigen vectors and the message's [double[3]] arrays *)

Record Vector3d : Type := Vector3 { vx : double; vy : double; vz : double }.

Definition vec_add (a b : Vector3d) : Vector3d :=
  Vector3 (vx a + vx b)%float (vy a + vy b)%float (vz a + vz b)%float.

Definition vec_div (a : Vector3d) (k : double) : Vector3d :=
  Vector3 (vx a / k)%float (vy a / k)%float (vz a / k)%float.

Record double3 : Type := Double3 { d0 : double; d1 : double; d2 : double }.

Definition zero3 : double3 := Double3 0%float 0%float 0%float.

(** The lambda [write_double3]: three element-wise stores into [dest]. *)
Definition write_double3 (src : Vector3d) (dest : double3) : double3 :=
  let dest := Double3 (vx src) (d1 dest) (d2 dest) in
  let dest := Double3 (d0 dest) (vy src) (d2 dest) in
  let dest := Double3 (d0 dest) (d1 dest) (vz src) in
  dest.

(** ** std::vector operations *)

(** [v[i]] for an [int] index; reading outside the vector is undefined. *)
Definition vec_at {A : Type} (v : list A) (i : Z) : result A :=
  if i <? 0 then Fail Undefined
  else match v !! Z.to_nat i with
       | Some a => Ok a
       | None => Fail Undefined
       end.

(** [v.resize(n)] for an [int] argument: a negative [n] converts to a
    [size_t] above [max_size()] and the call throws; otherwise the first
    elements are kept and the new ones are value-initialised. *)
Definition vec_resize {A : Type} (n : Z) (dflt : A) (v : list A) : result (list A) :=
  if n <? 0 then Fail LengthError else Ok (resize (Z.to_nat n) dflt v).

(** [for (int i = 0; i < n; ++i) body], threading the state [s]. *)
Fixpoint for_loop_from {S : Type} (i : Z) (count : nat)
    (body : Z -> S -> result S) (s : S) : result S :=
  match count with
  | O => Ok s
  | Datatypes.S count' => s' ← body i s; for_loop_from (i + 1) count' body s'
  end.

Definition for_loop {S : Type} (n : Z) (body : Z -> S -> result S) (s : S) : result S :=
  for_loop_from 0 (Z.to_nat n) body s.

(** ** The LCM message types

    Modelled from the spec: the generated LCM headers
    ([lcmt_contact_results_for_viz.hpp] and the types it includes) are not
    part of the sources; the records below carry the fields the output
    message shape lists, and a value-initialised record has empty strings,
    empty arrays and zero numbers. *)

Record lcmt_hydroelastic_contact_surface_tri_for_viz : Type := TriMsg {
  tri_p_WA : double3;
  tri_p_WB : double3;
  tri_p_WC : double3;
  tri_pressure_A : double;
  tri_pressure_B : double;
  tri_pressure_C : double
}.

Record lcmt_hydroelastic_quadrature_per_point_data_for_viz : Type := QuadMsg {
  quad_p_WQ : double3;
  quad_vt_BqAq_W : double3;
  quad_traction_Aq_W : double3
}.

Record lcmt_hydroelastic_contact_surface_for_viz : Type := SurfaceMsg {
  surf_body1_name : string;
  surf_body2_name : string;
  surf_centroid_W : double3;
  surf_force_C_W : double3;
  surf_moment_C_W : double3;
  surf_num_triangles : Z;
  surf_triangles : list lcmt_hydroelastic_contact_surface_tri_for_viz;
  surf_num_quadrature_points : Z;
  surf_quadrature_point_data :
    list lcmt_hydroelastic_quadrature_per_point_data_for_viz
}.

Record lcmt_point_pair_contact_info_for_viz : Type := InfoMsg {
  info_timestamp : Z;
  info_body1_name : string;
  info_body2_name : string;
  info_contact_point : double3;
  info_contact_force : double3;
  info_normal : double3
}.

Record lcmt_contact_results_for_viz : Type := ResultsMsg {
  msg_timestamp : Z;
  msg_num_point_pair_contacts : Z;
  msg_point_pair_contact_info : list lcmt_point_pair_contact_info_for_viz;
  msg_num_hydroelastic_contacts : Z;
  msg_hydroelastic_contacts : list lcmt_hydroelastic_contact_surface_for_viz
}.

Definition tri_default : lcmt_hydroelastic_contact_surface_tri_for_viz :=
  TriMsg zero3 zero3 zero3 0%float 0%float 0%float.

Definition quad_default : lcmt_hydroelastic_quadrature_per_point_data_for_viz :=
  QuadMsg zero3 zero3 zero3.

Definition surface_default : lcmt_hydroelastic_contact_surface_for_viz :=
  SurfaceMsg "" "" zero3 zero3 zero3 0 [] 0 [].

Definition info_default : lcmt_point_pair_contact_info_for_viz :=
  InfoMsg 0 "" "" zero3 zero3 zero3.

Definition results_default : lcmt_contact_results_for_viz :=
  ResultsMsg 0 0 [] 0 [].

(** ** The geometry engine's types

    Drake's query results, as this translation unit reads them. *)

Definition GeometryId : Type := Z.

(** [to_string] of an identifier: its value in decimal. *)
Definition to_string (id : GeometryId) : string :=
  NilZero.string_of_int (Z.to_int id).

Record SurfaceTriangle : Type := Triangle { tv0 : Z; tv1 : Z; tv2 : Z }.

(** [face.vertex(k)] for the constant indices 0, 1 and 2 the encoder uses. *)
Definition face_vertex (face : SurfaceTriangle) (k : nat) : Z :=
  match k with
  | O => tv0 face
  | 1%nat => tv1 face
  | _ => tv2 face
  end.

Record TriangleSurfaceMesh : Type := Mesh {
  mesh_triangles : list SurfaceTriangle;
  mesh_vertices : list Vector3d;
  mesh_centroid : Vector3d
}.

(** [num_triangles()] returns an [int]. *)
Definition num_triangles (m : TriangleSurfaceMesh) : Z :=
  static_cast_int (size (mesh_triangles m)).

(** [element(e)] and [vertex(v)] demand an index inside the array. *)
Definition mesh_element (m : TriangleSurfaceMesh) (e : Z) : result SurfaceTriangle :=
  if (0 <=? e) && (e <? size (mesh_triangles m))
  then match mesh_triangles m !! Z.to_nat e with
       | Some t => Ok t
       | None => Fail DrakeDemand
       end
  else Fail DrakeDemand.

Definition mesh_vertex (m : TriangleSurfaceMesh) (v : Z) : result Vector3d :=
  if (0 <=? v) && (v <? size (mesh_vertices m))
  then match mesh_vertices m !! Z.to_nat v with
       | Some p => Ok p
       | None => Fail DrakeDemand
       end
  else Fail DrakeDemand.

(** The pressure field: one value per mesh vertex. *)
Record MeshFieldLinear : Type := Field { field_values : list double }.

Definition EvaluateAtVertex (f : MeshFieldLinear) (v : Z) : result double :=
  vec_at (field_values f) v.

Record ContactSurface : Type := Surface {
  id_M : GeometryId;
  id_N : GeometryId;
  mesh_W : TriangleSurfaceMesh;
  e_MN : MeshFieldLinear
}.

Record PenetrationAsPointPair : Type := PointPair {
  id_A : GeometryId;
  id_B : GeometryId;
  p_WCa : Vector3d;
  p_WCb : Vector3d;
  nhat_BA_W : Vector3d;
  depth : double
}.

(** The query object: the two contact computations, either of which may
    throw, and the inspector's name lookup, which throws on an unknown
    identifier. *)
Record QueryObject : Type := Query {
  ComputeContactSurfaces : result (list ContactSurface);
  ComputeContactSurfacesWithFallback :
    result (list ContactSurface * list PenetrationAsPointPair);
  GetName : GeometryId -> result string
}.

(** The context: the simulation time and the value on the query input port. *)
Record Context : Type := MkContext {
  get_time : double;
  query_port : QueryObject
}.

(** ** Field assignments *)

Definition set_tri_p_WA (v : double3) (t : lcmt_hydroelastic_contact_surface_tri_for_viz) :=
  TriMsg v (tri_p_WB t) (tri_p_WC t) (tri_pressure_A t) (tri_pressure_B t) (tri_pressure_C t).
Definition set_tri_p_WB (v : double3) (t : lcmt_hydroelastic_contact_surface_tri_for_viz) :=
  TriMsg (tri_p_WA t) v (tri_p_WC t) (tri_pressure_A t) (tri_pressure_B t) (tri_pressure_C t).
Definition set_tri_p_WC (v : double3) (t : lcmt_hydroelastic_contact_surface_tri_for_viz) :=
  TriMsg (tri_p_WA t) (tri_p_WB t) v (tri_pressure_A t) (tri_pressure_B t) (tri_pressure_C t).
Definition set_tri_pressure_A (v : double) (t : lcmt_hydroelastic_contact_surface_tri_for_viz) :=
  TriMsg (tri_p_WA t) (tri_p_WB t) (tri_p_WC t) v (tri_pressure_B t) (tri_pressure_C t).
Definition set_tri_pressure_B (v : double) (t : lcmt_hydroelastic_contact_surface_tri_for_viz) :=
  TriMsg (tri_p_WA t) (tri_p_WB t) (tri_p_WC t) (tri_pressure_A t) v (tri_pressure_C t).
Definition set_tri_pressure_C (v : double) (t : lcmt_hydroelastic_contact_surface_tri_for_viz) :=
  TriMsg (tri_p_WA t) (tri_p_WB t) (tri_p_WC t) (tri_pressure_A t) (tri_pressure_B t) v.

Definition set_quad_p_WQ (v : double3) (q : lcmt_hydroelastic_quadrature_per_point_data_for_viz) :=
  QuadMsg v (quad_vt_BqAq_W q) (quad_traction_Aq_W q).
Definition set_quad_vt_BqAq_W (v : double3) (q : lcmt_hydroelastic_quadrature_per_point_data_for_viz) :=
  QuadMsg (quad_p_WQ q) v (quad_traction_Aq_W q).
Definition set_quad_traction_Aq_W (v : double3) (q : lcmt_hydroelastic_quadrature_per_point_data_for_viz) :=
  QuadMsg (quad_p_WQ q) (quad_vt_BqAq_W q) v.

Definition set_surf_body1_name (v : string) (s : lcmt_hydroelastic_contact_surface_for_viz) :=
  SurfaceMsg v (surf_body2_name s) (surf_centroid_W s) (surf_force_C_W s)
    (surf_moment_C_W s) (surf_num_triangles s) (surf_triangles s)
    (surf_num_quadrature_points s) (surf_quadrature_point_data s).
Definition set_surf_body2_name (v : string) (s : lcmt_hydroelastic_contact_surface_for_viz) :=
  SurfaceMsg (surf_body1_name s) v (surf_centroid_W s) (surf_force_C_W s)
    (surf_moment_C_W s) (surf_num_triangles s) (surf_triangles s)
    (surf_num_quadrature_points s) (surf_quadrature_point_data s).
Definition set_surf_centroid_W (v : double3) (s : lcmt_hydroelastic_contact_surface_for_viz) :=
  SurfaceMsg (surf_body1_name s) (surf_body2_name s) v (surf_force_C_W s)
    (surf_moment_C_W s) (surf_num_triangles s) (surf_triangles s)
    (surf_num_quadrature_points s) (surf_quadrature_point_data s).
Definition set_surf_force_C_W (v : double3) (s : lcmt_hydroelastic_contact_surface_for_viz) :=
  SurfaceMsg (surf_body1_name s) (surf_body2_name s) (surf_centroid_W s) v
    (surf_moment_C_W s) (surf_num_triangles s) (surf_triangles s)
    (surf_num_quadrature_points s) (surf_quadrature_point_data s).
Definition set_surf_moment_C_W (v : double3) (s : lcmt_hydroelastic_contact_surface_for_viz) :=
  SurfaceMsg (surf_body1_name s) (surf_body2_name s) (surf_centroid_W s)
    (surf_force_C_W s) v (surf_num_triangles s) (surf_triangles s)
    (surf_num_quadrature_points s) (surf_quadrature_point_data s).
Definition set_surf_num_triangles (v : Z) (s : lcmt_hydroelastic_contact_surface_for_viz) :=
  SurfaceMsg (surf_body1_name s) (surf_body2_name s) (surf_centroid_W s)
    (surf_force_C_W s) (surf_moment_C_W s) v (surf_triangles s)
    (surf_num_quadrature_points s) (surf_quadrature_point_data s).
Definition set_surf_triangles (v : list lcmt_hydroelastic_contact_surface_tri_for_viz)
    (s : lcmt_hydroelastic_contact_surface_for_viz) :=
  SurfaceMsg (surf_body1_name s) (surf_body2_name s) (surf_centroid_W s)
    (surf_force_C_W s) (surf_moment_C_W s) (surf_num_triangles s) v
    (surf_num_quadrature_points s) (surf_quadrature_point_data s).
Definition set_surf_num_quadrature_points (v : Z) (s : lcmt_hydroelastic_contact_surface_for_viz) :=
  SurfaceMsg (surf_body1_name s) (surf_body2_name s) (surf_centroid_W s)
    (surf_force_C_W s) (surf_moment_C_W s) (surf_num_triangles s) (surf_triangles s)
    v (surf_quadrature_point_data s).
Definition set_surf_quadrature_point_data
    (v : list lcmt_hydroelastic_quadrature_per_point_data_for_viz)
    (s : lcmt_hydroelastic_contact_surface_for_viz) :=
  SurfaceMsg (surf_body1_name s) (surf_body2_name s) (surf_centroid_W s)
    (surf_force_C_W s) (surf_moment_C_W s) (surf_num_triangles s) (surf_triangles s)
    (surf_num_quadrature_points s) v.

Definition set_info_timestamp (v : Z) (r : lcmt_point_pair_contact_info_for_viz) :=
  InfoMsg v (info_body1_name r) (info_body2_name r) (info_contact_point r)
    (info_contact_force r) (info_normal r).
Definition set_info_body1_name (v : string) (r : lcmt_point_pair_contact_info_for_viz) :=
  InfoMsg (info_timestamp r) v (info_body2_name r) (info_contact_point r)
    (info_contact_force r) (info_normal r).
Definition set_info_contact_point (v : double3) (r : lcmt_point_pair_contact_info_for_viz) :=
  InfoMsg (info_timestamp r) (info_body1_name r) (info_body2_name r) v
    (info_contact_force r) (info_normal r).
Definition set_info_contact_force (v : double3) (r : lcmt_point_pair_contact_info_for_viz) :=
  InfoMsg (info_timestamp r) (info_body1_name r) (info_body2_name r)
    (info_contact_point r) v (info_normal r).
Definition set_info_normal (v : double3) (r : lcmt_point_pair_contact_info_for_viz) :=
  InfoMsg (info_timestamp r) (info_body1_name r) (info_body2_name r)
    (info_contact_point r) (info_contact_force r) v.

Definition set_msg_timestamp (v : Z) (m : lcmt_contact_results_for_viz) :=
  ResultsMsg v (msg_num_point_pair_contacts m) (msg_point_pair_contact_info m)
    (msg_num_hydroelastic_contacts m) (msg_hydroelastic_contacts m).
Definition set_msg_num_point_pair_contacts (v : Z) (m : lcmt_contact_results_for_viz) :=
  ResultsMsg (msg_timestamp m) v (msg_point_pair_contact_info m)
    (msg_num_hydroelastic_contacts m) (msg_hydroelastic_contacts m).
Definition set_msg_point_pair_contact_info
    (v : list lcmt_point_pair_contact_info_for_viz) (m : lcmt_contact_results_for_viz) :=
  ResultsMsg (msg_timestamp m) (msg_num_point_pair_contacts m) v
    (msg_num_hydroelastic_contacts m) (msg_hydroelastic_contacts m).
Definition set_msg_num_hydroelastic_contacts (v : Z) (m : lcmt_contact_results_for_viz) :=
  ResultsMsg (msg_timestamp m) (msg_num_point_pair_contacts m)
    (msg_point_pair_contact_info m) v (msg_hydroelastic_contacts m).
Definition set_msg_hydroelastic_contacts
    (v : list lcmt_hydroelastic_contact_surface_for_viz) (m : lcmt_contact_results_for_viz) :=
  ResultsMsg (msg_timestamp m) (msg_num_point_pair_contacts m)
    (msg_point_pair_contact_info m) (msg_num_hydroelastic_contacts m) v.

(** ** ContactResultMaker::CalcContactResults *)

(** The placeholder vectors the encoder writes. *)
Definition slip_velocity : Vector3d := Vector3 0%float 0.2%float 0%float.
Definition traction : Vector3d := Vector3 0%float (-0.2)%float 0%float.
Definition fake_force : Vector3d := Vector3 1%float 0%float 0%float.
Definition fake_moment : Vector3d := Vector3 0%float 0%float 1%float.

(** Body of the loop over the triangles of one surface; [tri_msg] and
    [quad_msg] are references into [surface_msg], written back at [j]. *)
Definition triangle_body (mesh_W : TriangleSurfaceMesh) (field : MeshFieldLinear)
    (j : Z) (surface_msg : lcmt_hydroelastic_contact_surface_for_viz)
    : result lcmt_hydroelastic_contact_surface_for_viz :=
  tri_msg ← vec_at (surf_triangles surface_msg) j;
  quad_msg ← vec_at (surf_quadrature_point_data surface_msg) j;
  face ← mesh_element mesh_W j;
  vA ← mesh_vertex mesh_W (face_vertex face 0);
  vB ← mesh_vertex mesh_W (face_vertex face 1);
  vC ← mesh_vertex mesh_W (face_vertex face 2);
  let tri_msg := set_tri_p_WA (write_double3 vA (tri_p_WA tri_msg)) tri_msg in
  let tri_msg := set_tri_p_WB (write_double3 vB (tri_p_WB tri_msg)) tri_msg in
  let tri_msg := set_tri_p_WC (write_double3 vC (tri_p_WC tri_msg)) tri_msg in
  let quad_msg :=
    set_quad_p_WQ
      (write_double3 (vec_div (vec_add (vec_add vA vB) vC) 3%float)
         (quad_p_WQ quad_msg)) quad_msg in
  pA ← EvaluateAtVertex field (face_vertex face 0);
  let tri_msg := set_tri_pressure_A pA tri_msg in
  pB ← EvaluateAtVertex field (face_vertex face 1);
  let tri_msg := set_tri_pressure_B pB tri_msg in
  pC ← EvaluateAtVertex field (face_vertex face 2);
  let tri_msg := set_tri_pressure_C pC tri_msg in
  let quad_msg :=
    set_quad_vt_BqAq_W (write_double3 slip_velocity (quad_vt_BqAq_W quad_msg))
      quad_msg in
  let quad_msg :=
    set_quad_traction_Aq_W (write_double3 traction (quad_traction_Aq_W quad_msg))
      quad_msg in
  mret (set_surf_quadrature_point_data
          (<[Z.to_nat j := quad_msg]> (surf_quadrature_point_data surface_msg))
          (set_surf_triangles
             (<[Z.to_nat j := tri_msg]> (surf_triangles surface_msg)) surface_msg)).

(** Body of the loop over the contact surfaces; [surface_msg] is a reference
    to [msg.hydroelastic_contacts[i]]. *)
Definition surface_body (surfaces : list ContactSurface)
    (i : Z) (msg : lcmt_contact_results_for_viz)
    : result lcmt_contact_results_for_viz :=
  surface_msg ← vec_at (msg_hydroelastic_contacts msg) i;
  surface ← vec_at surfaces i;
  let surface_msg :=
    set_surf_body1_name ("Id_" +:+ to_string (id_M surface)) surface_msg in
  let surface_msg :=
    set_surf_body2_name ("Id_" +:+ to_string (id_N surface)) surface_msg in
  let mesh_W := mesh_W surface in
  let surface_msg := set_surf_num_triangles (num_triangles mesh_W) surface_msg in
  triangles ← vec_resize (surf_num_triangles surface_msg) tri_default
                (surf_triangles surface_msg);
  let surface_msg := set_surf_triangles triangles surface_msg in
  let surface_msg :=
    set_surf_centroid_W
      (write_double3 (mesh_centroid mesh_W) (surf_centroid_W surface_msg))
      surface_msg in
  let surface_msg :=
    set_surf_num_quadrature_points (surf_num_triangles surface_msg) surface_msg in
  quadrature_point_data ←
    vec_resize (surf_num_quadrature_points surface_msg) quad_default
      (surf_quadrature_point_data surface_msg);
  let surface_msg :=
    set_surf_quadrature_point_data quadrature_point_data surface_msg in
  let field := e_MN surface in
  surface_msg ←
    for_loop (surf_num_triangles surface_msg) (triangle_body mesh_W field)
      surface_msg;
  let surface_msg :=
    set_surf_force_C_W (write_double3 fake_force (surf_force_C_W surface_msg))
      surface_msg in
  let surface_msg :=
    set_surf_moment_C_W (write_double3 fake_moment (surf_moment_C_W surface_msg))
      surface_msg in
  mret (set_msg_hydroelastic_contacts
          (<[Z.to_nat i := surface_msg]> (msg_hydroelastic_contacts msg)) msg).

(** Body of the loop over the point pairs; [info_msg] is a reference to
    [msg.point_pair_contact_info[i]].  Both name lookups are stored into
    [body1_name], as in the source. *)
Definition point_pair_body (query_object : QueryObject)
    (points : list PenetrationAsPointPair)
    (i : Z) (msg : lcmt_contact_results_for_viz)
    : result lcmt_contact_results_for_viz :=
  info_msg ← vec_at (msg_point_pair_contact_info msg) i;
  let info_msg := set_info_timestamp (msg_timestamp msg) info_msg in
  pair ← vec_at points i;
  name_A ← GetName query_object (id_A pair);
  let info_msg := set_info_body1_name name_A info_msg in
  name_B ← GetName query_object (id_B pair);
  let info_msg := set_info_body1_name name_B info_msg in
  let contact_point := vec_div (vec_add (p_WCa pair) (p_WCb pair)) 2%float in
  let info_msg :=
    set_info_contact_point
      (write_double3 contact_point (info_contact_point info_msg)) info_msg in
  let info_msg :=
    set_info_contact_force
      (write_double3 (nhat_BA_W pair) (info_contact_force info_msg)) info_msg in
  let info_msg :=
    set_info_normal (write_double3 (nhat_BA_W pair) (info_normal info_msg))
      info_msg in
  mret (set_msg_point_pair_contact_info
          (<[Z.to_nat i := info_msg]> (msg_point_pair_contact_info msg)) msg).

(** The contact query, in the mode the maker was constructed with. *)
Definition compute_contacts (use_strict_hydro_ : bool) (query_object : QueryObject)
    : result (list ContactSurface * list PenetrationAsPointPair) :=
  if use_strict_hydro_ then
    surfaces ← ComputeContactSurfaces query_object;
    mret (surfaces, [])
  else ComputeContactSurfacesWithFallback query_object.

(** The whole calculation.  [results] is the output argument: the message
    the framework hands in, which the call overwrites in place. *)
Definition CalcContactResults (use_strict_hydro_ : bool) (context : Context)
    (results : lcmt_contact_results_for_viz)
    : result lcmt_contact_results_for_viz :=
  let query_object := query_port context in
  contacts ← compute_contacts use_strict_hydro_ query_object;
  let surfaces := contacts.1 in
  let points := contacts.2 in
  let num_surfaces := static_cast_int (size surfaces) in
  let num_pairs := static_cast_int (size points) in
  let msg := results in
  timestamp ← double_to_int64 (get_time context * 1e6)%float;
  let msg := set_msg_timestamp timestamp msg in
  let msg := set_msg_num_point_pair_contacts num_pairs msg in
  point_pair_contact_info ←
    vec_resize num_pairs info_default (msg_point_pair_contact_info msg);
  let msg := set_msg_point_pair_contact_info point_pair_contact_info msg in
  let msg := set_msg_num_hydroelastic_contacts num_surfaces msg in
  hydroelastic_contacts ←
    vec_resize num_surfaces surface_default (msg_hydroelastic_contacts msg);
  let msg := set_msg_hydroelastic_contacts hydroelastic_contacts msg in
  msg ← for_loop num_surfaces (surface_body surfaces) msg;
  msg ← for_loop num_pairs (point_pair_body query_object points) msg;
  mret msg.

(** Messages the output port can hold: the value-initialised one, and
    whatever a completed calculation left in it. *)
Inductive reachable : lcmt_contact_results_for_viz -> Prop :=
  | reachable_default : reachable results_default
  | reachable_calc strict context msg msg' :
      reachable msg ->
      CalcContactResults strict context msg = Ok msg' ->
      reachable msg'.

(** ** Scenarios *)

Definition scenario_B_mesh : TriangleSurfaceMesh :=
  Mesh [Triangle 0 1 2]
       [Vector3 0%float 0%float 0%float;
        Vector3 1%float 0%float 0%float;
        Vector3 0%float 1%float 0%float]
       (Vector3 (1 / 3)%float (1 / 3)%float 0%float).

Definition scenario_B_surface : ContactSurface :=
  Surface 7 12 scenario_B_mesh (Field [10%float; 20%float; 30%float]).

Definition scenario_C_pair : PenetrationAsPointPair :=
  PointPair 7 12 (Vector3 0%float 0%float 1%float)
    (Vector3 0%float 0%float 0.8%float) (Vector3 0%float 0%float 1%float)
    0.2%float.

Definition scenario_names (id : GeometryId) : result string :=
  if id =? 7 then Ok "ball"
  else if id =? 12 then Ok "can1"
  else Fail LogicError.

Definition scenario_query : QueryObject :=
  Query (Ok [scenario_B_surface])
        (Ok ([scenario_B_surface], [scenario_C_pair]))
        scenario_names.

Definition scenario_context : Context := MkContext 0.25%float scenario_query.

(** A snapshot without contacts, taken 2^-20 s into the simulation. *)
Definition quiet_query : QueryObject := Query (Ok []) (Ok ([], [])) scenario_names.

Definition sub_microsecond_context : Context := MkContext 0x1p-20%float quiet_query.

(** The messages the scenario produces from a value-initialised output. *)
Definition scenario_strict_out : lcmt_contact_results_for_viz :=
  Eval vm_compute in
    match CalcContactResults true scenario_context results_default with
    | Ok out => out
    | Fail _ => results_default
    end.

Definition quiet_out : lcmt_contact_results_for_viz :=
  Eval vm_compute in
    match CalcContactResults true sub_microsecond_context results_default with
    | Ok out => out
    | Fail _ => results_default
    end.

Definition scenario_fallback_out : lcmt_contact_results_for_viz :=
  Eval vm_compute in
    match CalcContactResults false scenario_context results_default with
    | Ok out => out
    | Fail _ => results_default
    end.

(** ** The encoder as a pure function

    What the in-place loops compute, written with [mapM] over the inputs.
    [CalcContactResults_pure] below proves the two agree on every input,
    failures included. *)

Definition of_vector (v : Vector3d) : double3 := Double3 (vx v) (vy v) (vz v).

Definition encode_triangle (mesh_W : TriangleSurfaceMesh) (field : MeshFieldLinear)
    (j : Z)
    : result (lcmt_hydroelastic_contact_surface_tri_for_viz *
              lcmt_hydroelastic_quadrature_per_point_data_for_viz) :=
  face ← mesh_element mesh_W j;
  vA ← mesh_vertex mesh_W (tv0 face);
  vB ← mesh_vertex mesh_W (tv1 face);
  vC ← mesh_vertex mesh_W (tv2 face);
  pA ← EvaluateAtVertex field (tv0 face);
  pB ← EvaluateAtVertex field (tv1 face);
  pC ← EvaluateAtVertex field (tv2 face);
  mret (TriMsg (of_vector vA) (of_vector vB) (of_vector vC) pA pB pC,
        QuadMsg (of_vector (vec_div (vec_add (vec_add vA vB) vC) 3%float))
          (of_vector slip_velocity) (of_vector traction)).

Definition encode_surface (surface : ContactSurface)
    : result lcmt_hydroelastic_contact_surface_for_viz :=
  let n := num_triangles (mesh_W surface) in
  if n <? 0 then Fail LengthError
  else
    tq ← mapM (encode_triangle (mesh_W surface) (e_MN surface)) (seqZ 0 n);
    mret (SurfaceMsg ("Id_" +:+ to_string (id_M surface))
            ("Id_" +:+ to_string (id_N surface))
            (of_vector (mesh_centroid (mesh_W surface)))
            (of_vector fake_force) (of_vector fake_moment)
            n tq.*1 n tq.*2).

(** [body2] is the string the record held before the call. *)
Definition encode_point_pair (query_object : QueryObject) (timestamp : Z)
    (pair : PenetrationAsPointPair) (body2 : string)
    : result lcmt_point_pair_contact_info_for_viz :=
  name_A ← GetName query_object (id_A pair);
  name_B ← GetName query_object (id_B pair);
  mret (InfoMsg timestamp name_B body2
          (of_vector (vec_div (vec_add (p_WCa pair) (p_WCb pair)) 2%float))
          (of_vector (nhat_BA_W pair)) (of_vector (nhat_BA_W pair))).

(** The [body2_name] strings of the first [n] point-pair records once the
    array has been resized to [n]. *)
Definition kept_body2_names (n : Z) (results : lcmt_contact_results_for_viz)
    : list string :=
  info_body2_name <$>
    resize (Z.to_nat n) info_default (msg_point_pair_contact_info results).

Definition encode_message (use_strict_hydro_ : bool) (context : Context)
    (results : lcmt_contact_results_for_viz)
    : result lcmt_contact_results_for_viz :=
  contacts ← compute_contacts use_strict_hydro_ (query_port context);
  let num_surfaces := static_cast_int (size contacts.1) in
  let num_pairs := static_cast_int (size contacts.2) in
  timestamp ← double_to_int64 (get_time context * 1e6)%float;
  if num_pairs <? 0 then Fail LengthError
  else if num_surfaces <? 0 then Fail LengthError
  else
    surfaces ← mapM encode_surface (take (Z.to_nat num_surfaces) contacts.1);
    infos ← mapM (λ p, encode_point_pair (query_port context) timestamp p.1 p.2)
              (zip (take (Z.to_nat num_pairs) contacts.2)
                   (kept_body2_names num_pairs results));
    mret (ResultsMsg timestamp num_pairs infos num_surfaces surfaces).

(** [mapM] with the element's index, counted from [i]. *)
Fixpoint mapM_from {A B : Type} (f : Z -> A -> result B) (i : Z) (l : list A)
    : result (list B) :=
  match l with
  | [] => Ok []
  | a :: l' => y ← f i a; ys ← mapM_from f (i + 1) l'; mret (y :: ys)
  end.

(** ** Well-formed inputs *)





(** ** Encoded records *)

(** The record of one face: the three vertices it names, the field at those
    three indices, the mean of the vertices and the two placeholders. *)
Definition triangle_encoded (surface : ContactSurface) (face : SurfaceTriangle)
    (tri : lcmt_hydroelastic_contact_surface_tri_for_viz)
    (quad : lcmt_hydroelastic_quadrature_per_point_data_for_viz) : Prop :=
  exists vA vB vC pA pB pC,
    (mesh_vertices (mesh_W surface) !! Z.to_nat (tv0 face) = Some vA /\
     mesh_vertices (mesh_W surface) !! Z.to_nat (tv1 face) = Some vB /\
     mesh_vertices (mesh_W surface) !! Z.to_nat (tv2 face) = Some vC) /\
    (field_values (e_MN surface) !! Z.to_nat (tv0 face) = Some pA /\
     field_values (e_MN surface) !! Z.to_nat (tv1 face) = Some pB /\
     field_values (e_MN surface) !! Z.to_nat (tv2 face) = Some pC) /\
    tri = TriMsg (of_vector vA) (of_vector vB) (of_vector vC) pA pB pC /\
    quad = QuadMsg (of_vector (vec_div (vec_add (vec_add vA vB) vC) 3%float))
             (of_vector slip_velocity) (of_vector traction).

(** The strings [body2_name] can hold: nothing but the empty one is ever
    stored there. *)
Definition body2_names_empty (msg : lcmt_contact_results_for_viz) : Prop :=
  Forall (λ info, info_body2_name info = "") (msg_point_pair_contact_info msg).

(** ** Timestamps as the specification words them *)

(** Truncation toward zero of a rational. *)
Definition Qtruncate (q : Q) : Z :=
  if Qle_bool 0%Q q then Qfloor q else Qceiling q.

(** Rounding to the nearest integer, halves away from zero. *)
Definition Qround_nearest (q : Q) : Z :=
  if Qle_bool 0%Q q then Qfloor (q + (1 # 2))%Q else Qceiling (q - (1 # 2))%Q.

(** The specification's timestamp: [round(simulation_time_seconds * 1_000_000)]. *)
Definition timestamp_spec (simulation_time_seconds : Q) : Z :=
  Qround_nearest (simulation_time_seconds * 1000000)%Q.

(** ** Records that differ in [body2_name] at most *)

Definition same_except_body2_name
    (a b : lcmt_point_pair_contact_info_for_viz) : Prop :=
  info_timestamp a = info_timestamp b /\
  info_body1_name a = info_body1_name b /\
  info_contact_point a = info_contact_point b /\
  info_contact_force a = info_contact_force b /\
  info_normal a = info_normal b.

(** An output message some earlier use left behind: one point-pair record
    whose [body2_name] is not empty. *)
Definition stale_results : lcmt_contact_results_for_viz :=
  ResultsMsg 17 1 [InfoMsg 17 "old1" "old2" zero3 zero3 zero3] 0 [].

Definition stale_fallback_out : lcmt_contact_results_for_viz :=
  Eval vm_compute in
    match CalcContactResults false scenario_context stale_results with
    | Ok out => out
    | Fail _ => results_default
    end.

(** ** The stepping loop of the hydroelastic example

    [do_main] of drake_ros_examples/examples/hydroelastic/hydroelastic.cc
    advances the simulator in steps of [kStep] seconds, never asking for a
    time beyond [FLAGS_simulation_sec]. *)

Definition kStep : double := 0.1%float.

(** [std::min(a, b)]: [b] when [b < a], otherwise [a]. *)
Definition std_min (a b : double) : double :=
  if (b <? a)%float then b else a.

(** [next_time] of one iteration, from the current time. *)
Definition next_time (simulation_sec time : double) : double :=
  std_min simulation_sec (time + kStep)%float.

(** The simulator, as far as the loop uses it: the time of its context and
    [AdvanceTo], which may throw. *)
Record Simulator (S : Type) : Type := MkSimulator {
  sim_get_time : S -> double;
  sim_AdvanceTo : double -> S -> result S
}.

Arguments MkSimulator {S} _ _.
Arguments sim_get_time {S} _ _.
Arguments sim_AdvanceTo {S} _ _ _.

(** [while (time < FLAGS_simulation_sec) AdvanceTo(next_time)], run for at
    most [fuel] iterations: [None] when the loop is still running after them,
    otherwise how it ended. *)
Fixpoint stepping_loop {S : Type} (simulator : Simulator S)
    (simulation_sec : double) (fuel : nat) (s : S) : option (result S) :=
  if (sim_get_time simulator s <? simulation_sec)%float then
    match fuel with
    | O => None
    | Datatypes.S fuel' =>
        match sim_AdvanceTo simulator
                (next_time simulation_sec (sim_get_time simulator s)) s with
        | Ok s' => stepping_loop simulator simulation_sec fuel' s'
        | Fail e => Some (Fail e)
        end
    end
  else Some (Ok s).

(** The boundary times the loop hands to [AdvanceTo], in order. *)
Fixpoint requested_times {S : Type} (simulator : Simulator S)
    (simulation_sec : double) (fuel : nat) (s : S) : list double :=
  if (sim_get_time simulator s <? simulation_sec)%float then
    match fuel with
    | O => []
    | Datatypes.S fuel' =>
        let boundary := next_time simulation_sec (sim_get_time simulator s) in
        boundary ::
          match sim_AdvanceTo simulator boundary s with
          | Ok s' => requested_times simulator simulation_sec fuel' s'
          | Fail _ => []
          end
    end
  else [].

(** A simulator that reaches every boundary it is given: its state is the
    time. *)
Definition exact_simulator : Simulator double :=
  MkSimulator (λ t, t) (λ boundary _, Ok boundary).

(** * Properties *)

(** ** The result monad and the loops *)

Lemma bind_Ok {A B : Type} (c : result A) (k : A -> result B) (b : B) :
  c ≫= k = Ok b <-> exists a, c = Ok a /\ k a = Ok b.
Proof.
  destruct c as [a|f]; simpl; split.
  - intros H. exists a. split; [reflexivity | exact H].
  - intros (a' & [= <-] & H). exact H.
  - discriminate.
  - intros (a' & [=] & _).
Qed.

Lemma vec_at_Ok {A : Type} (v : list A) (i : Z) (a : A) :
  vec_at v i = Ok a <-> 0 <= i /\ v !! Z.to_nat i = Some a.
Proof.
  unfold vec_at. destruct (Z.ltb_spec i 0).
  - split; [discriminate | lia].
  - destruct (v !! Z.to_nat i) as [a'|]; split.
    + intros [= ->]. split; [lia | reflexivity].
    + intros [_ [= ->]]. reflexivity.
    + discriminate.
    + intros [_ [=]].
Qed.

Lemma vec_at_of_nat {A : Type} (v : list A) (k : nat) (a : A) :
  v !! k = Some a -> vec_at v (Z.of_nat k) = Ok a.
Proof. intros H. apply vec_at_Ok. rewrite Nat2Z.id. split; [lia | exact H]. Qed.

Lemma write_double3_of_vector (src : Vector3d) (dest : double3) :
  write_double3 src dest = of_vector src.
Proof. reflexivity. Qed.

(** A loop whose body rewrites element [j] of one array of the state computes
    a [mapM_from] over that array: the elements before the current index are
    final, those after it still hold what the state started with. *)
Section array_loop.
Context {S A : Type}.
Variable inj : list A -> S.
Variable f : Z -> A -> result A.
Variable body : Z -> S -> result S.
Hypothesis body_spec : forall (j : nat) (l : list A),
  body (Z.of_nat j) (inj l) =
    match l !! j with
    | Some a => x ← f (Z.of_nat j) a; mret (inj (<[j := x]> l))
    | None => Fail Undefined
    end.

Lemma for_loop_from_array (l2 l1 l3 : list A) :
  for_loop_from (Z.of_nat (length l1)) (length l2) body (inj (l1 ++ l2 ++ l3)) =
  xs ← mapM_from f (Z.of_nat (length l1)) l2; mret (inj (l1 ++ xs ++ l3)).
Proof using body_spec.
  revert l1. induction l2 as [|a l2 IH]; intros l1; [reflexivity|].
  cbn [for_loop_from mapM_from length].
  change ((a :: l2) ++ l3) with (a :: (l2 ++ l3)).
  rewrite body_spec.
  rewrite (list_lookup_middle l1 (l2 ++ l3) a (length l1) eq_refl).
  destruct (f (Z.of_nat (length l1)) a) as [x|e]; [|reflexivity].
  cbn [mbind result_bind mret result_ret].
  rewrite insert_app_r_alt by lia.
  rewrite Nat.sub_diag. cbn [insert list_insert].
  specialize (IH (l1 ++ [x])).
  rewrite length_app in IH. cbn [length] in IH.
  replace (Z.of_nat (length l1 + 1)) with (Z.of_nat (length l1) + 1) in IH by lia.
  rewrite <- !(assoc_L (++) l1 [x]) in IH. cbn [app] in IH.
  rewrite IH.
  destruct (mapM_from f (Z.of_nat (length l1) + 1) l2) as [xs|e]; [|reflexivity].
  cbn [mbind result_bind mret result_ret].
  rewrite <- (assoc_L (++) l1 [x]). reflexivity.
Qed.

Lemma for_loop_array (n : Z) (l : list A) :
  Z.to_nat n = length l ->
  for_loop n body (inj l) = xs ← mapM_from f 0 l; mret (inj xs).
Proof using body_spec.
  intros Hn. unfold for_loop. rewrite Hn.
  pose proof (for_loop_from_array l [] []) as H.
  change (Z.of_nat (length (@nil A))) with 0 in H.
  cbn [app] in H. rewrite !app_nil_r in H. rewrite H.
  destruct (mapM_from f 0 l) as [xs|e]; [|reflexivity].
  cbn [mbind result_bind mret result_ret]. rewrite app_nil_r. reflexivity.
Qed.
End array_loop.

Lemma mapM_from_index {A B : Type} (g : Z -> result B) (l : list A) (i : Z) :
  mapM_from (λ j _, g j) i l = mapM g (seqZ i (Z.of_nat (length l))).
Proof.
  revert i. induction l as [|a l IH]; intros i; [reflexivity|].
  cbn [length mapM_from]. rewrite Nat2Z.inj_succ, seqZ_cons by lia.
  rewrite Z.pred_succ. cbn [mapM]. rewrite IH.
  replace (Z.succ i) with (i + 1) by lia. reflexivity.
Qed.

Lemma mapM_from_zip {A B C D : Type} (g : A -> D -> result B) (F : C -> D)
    (xs : list A) (l : list C) (k : nat) :
  (k + length l <= length xs)%nat ->
  mapM_from (λ i c, x ← vec_at xs i; g x (F c)) (Z.of_nat k) l =
  mapM (λ p, g p.1 p.2) (zip (take (length l) (drop k xs)) (F <$> l)).
Proof.
  revert k. induction l as [|c l IH]; intros k Hk; [reflexivity|].
  cbn [length] in *.
  destruct (lookup_lt_is_Some_2 xs k ltac:(lia)) as [x Hx].
  rewrite (drop_S _ _ _ Hx).
  cbn [take zip zip_with mapM mapM_from fst snd fmap list_fmap].
  rewrite (vec_at_of_nat _ _ _ Hx). cbn [mbind result_bind].
  replace (Z.of_nat k + 1) with (Z.of_nat (Datatypes.S k)) by lia.
  rewrite IH by lia. reflexivity.
Qed.

Lemma mapM_from_vec {A B C : Type} (g : A -> result B) (xs : list A)
    (l : list C) (k : nat) :
  (k + length l <= length xs)%nat ->
  mapM_from (λ i _, x ← vec_at xs i; g x) (Z.of_nat k) l =
  mapM g (take (length l) (drop k xs)).
Proof.
  revert k. induction l as [|c l IH]; intros k Hk; [reflexivity|].
  cbn [length] in *.
  destruct (lookup_lt_is_Some_2 xs k ltac:(lia)) as [x Hx].
  rewrite (drop_S _ _ _ Hx). cbn [take mapM mapM_from].
  rewrite (vec_at_of_nat _ _ _ Hx). cbn [mbind result_bind].
  replace (Z.of_nat k + 1) with (Z.of_nat (Datatypes.S k)) by lia.
  rewrite IH by lia. reflexivity.
Qed.

Lemma mapM_from_zip_0 {A B C D : Type} (g : A -> D -> result B) (F : C -> D)
    (xs : list A) (l : list C) :
  (length l <= length xs)%nat ->
  mapM_from (λ i c, x ← vec_at xs i; g x (F c)) 0 l =
  mapM (λ p, g p.1 p.2) (zip (take (length l) xs) (F <$> l)).
Proof. intros H. apply (mapM_from_zip g F xs l 0). lia. Qed.

Lemma mapM_from_vec_0 {A B C : Type} (g : A -> result B) (xs : list A)
    (l : list C) :
  (length l <= length xs)%nat ->
  mapM_from (λ i _, x ← vec_at xs i; g x) 0 l = mapM g (take (length l) xs).
Proof. intros H. apply (mapM_from_vec g xs l 0). lia. Qed.

Lemma mapM_Ok_length {A B : Type} (f : A -> result B) (l : list A) (ys : list B) :
  mapM f l = Ok ys -> length ys = length l.
Proof.
  revert ys. induction l as [|a l IH]; intros ys; cbn [mapM].
  - intros [= <-]. reflexivity.
  - intros H. apply bind_Ok in H as (y & _ & H).
    apply bind_Ok in H as (ys' & Hys & [= <-]).
    cbn [length]. f_equal. apply IH, Hys.
Qed.

Lemma mapM_Ok_lookup {A B : Type} (f : A -> result B) (l : list A) (ys : list B)
    (i : nat) (a : A) :
  mapM f l = Ok ys -> l !! i = Some a ->
  exists y, ys !! i = Some y /\ f a = Ok y.
Proof.
  revert ys i. induction l as [|a' l IH]; intros ys i; cbn [mapM]; [done|].
  intros H Hi. apply bind_Ok in H as (y & Hy & H).
  apply bind_Ok in H as (ys' & Hys & [= <-]).
  destruct i as [|i]; cbn in Hi.
  - injection Hi as ->. exists y. split; [reflexivity | exact Hy].
  - apply (IH _ _ Hys Hi).
Qed.


Lemma vec_at_of_nat_None {A : Type} (v : list A) (k : nat) :
  v !! k = None -> vec_at v (Z.of_nat k) = Fail Undefined.
Proof.
  intros H. unfold vec_at. rewrite Nat2Z.id, H.
  destruct (Z.of_nat k <? 0); reflexivity.
Qed.

Lemma seqZ_to_nat (m n : Z) : seqZ m (Z.of_nat (Z.to_nat n)) = seqZ m n.
Proof. unfold seqZ. rewrite Nat2Z.id. reflexivity. Qed.

(** ** The loops against the pure encoder *)

Lemma triangle_body_spec (mesh : TriangleSurfaceMesh) (field : MeshFieldLinear)
    (sm : lcmt_hydroelastic_contact_surface_for_viz) (j : nat)
    (l : list (lcmt_hydroelastic_contact_surface_tri_for_viz *
               lcmt_hydroelastic_quadrature_per_point_data_for_viz)) :
  triangle_body mesh field (Z.of_nat j)
    (set_surf_quadrature_point_data l.*2 (set_surf_triangles l.*1 sm)) =
  match l !! j with
  | Some a =>
      x ← encode_triangle mesh field (Z.of_nat j);
      mret (set_surf_quadrature_point_data (<[j := x]> l).*2
              (set_surf_triangles (<[j := x]> l).*1 sm))
  | None => Fail Undefined
  end.
Proof.
  unfold triangle_body.
  cbn [surf_triangles surf_quadrature_point_data set_surf_triangles
       set_surf_quadrature_point_data].
  destruct (l !! j) as [[t q]|] eqn:Hl.
  - rewrite (vec_at_of_nat l.*1 j t) by (rewrite list_lookup_fmap, Hl; reflexivity).
    rewrite (vec_at_of_nat l.*2 j q) by (rewrite list_lookup_fmap, Hl; reflexivity).
    cbn [mbind result_bind]. unfold encode_triangle.
    destruct (mesh_element mesh (Z.of_nat j)) as [face|e]; [|reflexivity].
    cbn [mbind result_bind face_vertex].
    destruct (mesh_vertex mesh (tv0 face)) as [vA|e]; [|reflexivity].
    cbn [mbind result_bind].
    destruct (mesh_vertex mesh (tv1 face)) as [vB|e]; [|reflexivity].
    cbn [mbind result_bind].
    destruct (mesh_vertex mesh (tv2 face)) as [vC|e]; [|reflexivity].
    cbn [mbind result_bind].
    destruct (EvaluateAtVertex field (tv0 face)) as [pA|e]; [|reflexivity].
    cbn [mbind result_bind].
    destruct (EvaluateAtVertex field (tv1 face)) as [pB|e]; [|reflexivity].
    cbn [mbind result_bind].
    destruct (EvaluateAtVertex field (tv2 face)) as [pC|e]; [|reflexivity].
    cbn [mbind result_bind mret result_ret].
    rewrite Nat2Z.id, !list_fmap_insert. reflexivity.
  - rewrite (vec_at_of_nat_None l.*1 j) by (rewrite list_lookup_fmap, Hl; reflexivity).
    reflexivity.
Qed.

Lemma triangle_loop_pure (mesh : TriangleSurfaceMesh) (field : MeshFieldLinear)
    (n : Z) (sm : lcmt_hydroelastic_contact_surface_for_viz) :
  length (surf_triangles sm) = Z.to_nat n ->
  length (surf_quadrature_point_data sm) = Z.to_nat n ->
  for_loop n (triangle_body mesh field) sm =
  tq ← mapM (encode_triangle mesh field) (seqZ 0 n);
  mret (set_surf_quadrature_point_data tq.*2 (set_surf_triangles tq.*1 sm)).
Proof.
  intros Ht Hq.
  set (l := zip (surf_triangles sm) (surf_quadrature_point_data sm)).
  assert (Hl : length l = Z.to_nat n).
  { unfold l. rewrite length_zip_with. lia. }
  assert (Hsm : sm = set_surf_quadrature_point_data l.*2 (set_surf_triangles l.*1 sm)).
  { unfold l. rewrite fst_zip, snd_zip by lia. destruct sm. reflexivity. }
  rewrite Hsm at 1.
  rewrite (for_loop_array
             (λ l, set_surf_quadrature_point_data l.*2 (set_surf_triangles l.*1 sm))
             (λ j _, encode_triangle mesh field j)).
  - rewrite mapM_from_index, Hl, seqZ_to_nat. reflexivity.
  - intros j l'. apply triangle_body_spec.
  - symmetry. exact Hl.
Qed.

Lemma surface_body_spec (surfaces : list ContactSurface)
    (msg : lcmt_contact_results_for_viz) (i : nat)
    (l : list lcmt_hydroelastic_contact_surface_for_viz) :
  surface_body surfaces (Z.of_nat i) (set_msg_hydroelastic_contacts l msg) =
  match l !! i with
  | Some old =>
      x ← (surface ← vec_at surfaces (Z.of_nat i); encode_surface surface);
      mret (set_msg_hydroelastic_contacts (<[i := x]> l) msg)
  | None => Fail Undefined
  end.
Proof.
  unfold surface_body. cbn [msg_hydroelastic_contacts set_msg_hydroelastic_contacts].
  destruct (l !! i) as [old|] eqn:Hl.
  - rewrite (vec_at_of_nat l i old Hl). cbn [mbind result_bind].
    destruct (vec_at surfaces (Z.of_nat i)) as [surface|e]; [|reflexivity].
    cbn [mbind result_bind]. unfold encode_surface, vec_resize.
    cbn [surf_num_triangles set_surf_num_triangles surf_num_quadrature_points
         set_surf_num_quadrature_points set_surf_triangles set_surf_centroid_W
         set_surf_body1_name set_surf_body2_name].
    destruct (num_triangles (mesh_W surface) <? 0); [reflexivity|].
    cbn [mbind result_bind].
    rewrite triangle_loop_pure by (cbn; apply length_resize).
    destruct (mapM _ _) as [tq|e]; [|reflexivity].
    cbn [mbind result_bind mret result_ret]. rewrite Nat2Z.id. reflexivity.
  - rewrite (vec_at_of_nat_None l i Hl). reflexivity.
Qed.

Lemma point_pair_body_spec (query_object : QueryObject)
    (points : list PenetrationAsPointPair)
    (msg : lcmt_contact_results_for_viz) (i : nat)
    (l : list lcmt_point_pair_contact_info_for_viz) :
  point_pair_body query_object points (Z.of_nat i)
    (set_msg_point_pair_contact_info l msg) =
  match l !! i with
  | Some old =>
      x ← (pair ← vec_at points (Z.of_nat i);
           encode_point_pair query_object (msg_timestamp msg) pair
             (info_body2_name old));
      mret (set_msg_point_pair_contact_info (<[i := x]> l) msg)
  | None => Fail Undefined
  end.
Proof.
  unfold point_pair_body.
  cbn [msg_point_pair_contact_info set_msg_point_pair_contact_info msg_timestamp].
  destruct (l !! i) as [old|] eqn:Hl.
  - rewrite (vec_at_of_nat l i old Hl). cbn [mbind result_bind].
    destruct (vec_at points (Z.of_nat i)) as [pair|e]; [|reflexivity].
    cbn [mbind result_bind]. unfold encode_point_pair.
    destruct (GetName query_object (id_A pair)) as [name_A|e]; [|reflexivity].
    cbn [mbind result_bind].
    destruct (GetName query_object (id_B pair)) as [name_B|e]; [|reflexivity].
    cbn [mbind result_bind mret result_ret]. rewrite Nat2Z.id. reflexivity.
  - rewrite (vec_at_of_nat_None l i Hl). reflexivity.
Qed.

(** ** Narrowing *)

Lemma static_cast_int_range (z : Z) :
  - 2147483648 <= static_cast_int z <= INT_MAX.
Proof.
  unfold static_cast_int, INT_MAX.
  pose proof (Z.mod_pos_bound (z + 2147483648) 4294967296). lia.
Qed.

Lemma static_cast_int_le (z : Z) : 0 <= z -> static_cast_int z <= z.
Proof.
  unfold static_cast_int. intros Hz.
  pose proof (Z.mod_le (z + 2147483648) 4294967296). lia.
Qed.

Lemma static_cast_int_small (z : Z) :
  0 <= z <= INT_MAX -> static_cast_int z = z.
Proof. unfold static_cast_int, INT_MAX. intros Hz. rewrite Z.mod_small; lia. Qed.

Lemma static_cast_int_exact (z : Z) :
  0 <= z -> (static_cast_int z = z <-> z <= INT_MAX).
Proof.
  intros Hz. split.
  - intros <-. apply static_cast_int_range.
  - intros Hmax. apply static_cast_int_small. lia.
Qed.

Lemma narrowed_size_fits {A : Type} (v : list A) :
  (Z.to_nat (static_cast_int (size v)) <= length v)%nat.
Proof. pose proof (static_cast_int_le (size v)). unfold size in *. lia. Qed.

(** ** The in-place calculation is the pure encoder *)

Theorem CalcContactResults_pure (use_strict_hydro_ : bool) (context : Context)
    (results : lcmt_contact_results_for_viz) :
  CalcContactResults use_strict_hydro_ context results =
  encode_message use_strict_hydro_ context results.
Proof.
  unfold CalcContactResults, encode_message, kept_body2_names.
  destruct (compute_contacts use_strict_hydro_ (query_port context))
    as [[surfaces points]|e]; [|reflexivity].
  cbn [mbind result_bind fst snd].
  destruct (double_to_int64 (get_time context * 1000000)%float) as [ts|e];
    [|reflexivity].
  cbn [mbind result_bind]. unfold vec_resize.
  cbn [msg_point_pair_contact_info msg_hydroelastic_contacts set_msg_timestamp
       set_msg_num_point_pair_contacts set_msg_point_pair_contact_info
       set_msg_num_hydroelastic_contacts msg_timestamp msg_num_point_pair_contacts
       msg_num_hydroelastic_contacts].
  destruct (static_cast_int (size points) <? 0); [reflexivity|].
  cbn [mbind result_bind].
  destruct (static_cast_int (size surfaces) <? 0); [reflexivity|].
  cbn [mbind result_bind set_msg_hydroelastic_contacts msg_timestamp
       msg_num_point_pair_contacts msg_point_pair_contact_info
       msg_num_hydroelastic_contacts].
  set (np := static_cast_int (size points)).
  set (ns := static_cast_int (size surfaces)).
  set (infos0 := resize (Z.to_nat np) info_default (msg_point_pair_contact_info results)).
  set (surfs0 := resize (Z.to_nat ns) surface_default (msg_hydroelastic_contacts results)).
  change (set_msg_hydroelastic_contacts surfs0 _)
    with (set_msg_hydroelastic_contacts surfs0 (ResultsMsg ts np infos0 ns surfs0)).
  rewrite (for_loop_array
             (λ l, set_msg_hydroelastic_contacts l (ResultsMsg ts np infos0 ns surfs0))
             (λ i _, surface ← vec_at surfaces i; encode_surface surface)
             (surface_body surfaces) (surface_body_spec surfaces _) ns surfs0)
    by (unfold surfs0; rewrite length_resize; reflexivity).
  rewrite (mapM_from_vec_0 encode_surface surfaces surfs0)
    by (unfold surfs0; rewrite length_resize; apply narrowed_size_fits).
  replace (length surfs0) with (Z.to_nat ns)
    by (unfold surfs0; rewrite length_resize; reflexivity).
  destruct (mapM encode_surface (take (Z.to_nat ns) surfaces)) as [surfs|e];
    [|reflexivity].
  cbn [mbind result_bind mret result_ret set_msg_hydroelastic_contacts
       msg_timestamp msg_num_point_pair_contacts msg_point_pair_contact_info
       msg_num_hydroelastic_contacts].
  change (set_msg_hydroelastic_contacts surfs _)
    with (set_msg_point_pair_contact_info infos0 (ResultsMsg ts np infos0 ns surfs)).
  rewrite (for_loop_array
             (λ l, set_msg_point_pair_contact_info l (ResultsMsg ts np infos0 ns surfs))
             (λ i old, pair ← vec_at points i;
                       encode_point_pair (query_port context) ts pair
                         (info_body2_name old))
             (point_pair_body (query_port context) points)
             (point_pair_body_spec (query_port context) points _) np infos0)
    by (unfold infos0; rewrite length_resize; reflexivity).
  rewrite (mapM_from_zip_0 (encode_point_pair (query_port context) ts)
             info_body2_name points infos0)
    by (unfold infos0; rewrite length_resize; apply narrowed_size_fits).
  replace (length infos0) with (Z.to_nat np)
    by (unfold infos0; rewrite length_resize; reflexivity).
  destruct (mapM _ _) as [infos|e]; reflexivity.
Qed.

(** ** What a completed calculation returned *)

Lemma mapM_Ok_lookup_inv {A B : Type} (f : A -> result B) (l : list A)
    (ys : list B) (i : nat) (y : B) :
  mapM f l = Ok ys -> ys !! i = Some y ->
  exists a, l !! i = Some a /\ f a = Ok y.
Proof.
  intros H Hy. pose proof (mapM_Ok_length _ _ _ H) as Hlen.
  destruct (lookup_lt_is_Some_2 l i) as [a Ha].
  { rewrite <- Hlen. apply lookup_lt_is_Some_1. eauto. }
  destruct (mapM_Ok_lookup _ _ _ _ _ H Ha) as (y' & Hy' & Hf).
  exists a. split; [exact Ha | congruence].
Qed.

Lemma encode_message_Ok (strict : bool) (context : Context)
    (results out : lcmt_contact_results_for_viz) :
  encode_message strict context results = Ok out ->
  exists surfaces points ts surfs infos,
    compute_contacts strict (query_port context) = Ok (surfaces, points) /\
    double_to_int64 (get_time context * 1e6)%float = Ok ts /\
    0 <= static_cast_int (size points) /\
    0 <= static_cast_int (size surfaces) /\
    mapM encode_surface (take (Z.to_nat (static_cast_int (size surfaces))) surfaces)
      = Ok surfs /\
    mapM (λ p, encode_point_pair (query_port context) ts p.1 p.2)
      (zip (take (Z.to_nat (static_cast_int (size points))) points)
           (kept_body2_names (static_cast_int (size points)) results))
      = Ok infos /\
    out = ResultsMsg ts (static_cast_int (size points)) infos
            (static_cast_int (size surfaces)) surfs.
Proof.
  unfold encode_message. intros H.
  apply bind_Ok in H as ([surfaces points] & Hc & H). cbn [fst snd] in H.
  apply bind_Ok in H as (ts & Hts & H).
  destruct (Z.ltb_spec (static_cast_int (size points)) 0) as [|Hp]; [discriminate|].
  destruct (Z.ltb_spec (static_cast_int (size surfaces)) 0) as [|Hs]; [discriminate|].
  apply bind_Ok in H as (surfs & Hsurfs & H).
  apply bind_Ok in H as (infos & Hinfos & [= <-]).
  exists surfaces, points, ts, surfs, infos. done.
Qed.

Lemma encode_surface_Ok (surface : ContactSurface)
    (sm : lcmt_hydroelastic_contact_surface_for_viz) :
  encode_surface surface = Ok sm ->
  0 <= num_triangles (mesh_W surface) /\
  exists tq,
    mapM (encode_triangle (mesh_W surface) (e_MN surface))
      (seqZ 0 (num_triangles (mesh_W surface))) = Ok tq /\
    sm = SurfaceMsg ("Id_" +:+ to_string (id_M surface))
           ("Id_" +:+ to_string (id_N surface))
           (of_vector (mesh_centroid (mesh_W surface)))
           (of_vector fake_force) (of_vector fake_moment)
           (num_triangles (mesh_W surface)) tq.*1
           (num_triangles (mesh_W surface)) tq.*2.
Proof.
  unfold encode_surface. intros H.
  destruct (Z.ltb_spec (num_triangles (mesh_W surface)) 0) as [|Hn]; [discriminate|].
  apply bind_Ok in H as (tq & Htq & [= <-]). split; [exact Hn|].
  exists tq. done.
Qed.

Lemma mesh_element_Ok (m : TriangleSurfaceMesh) (e : Z) (face : SurfaceTriangle) :
  mesh_element m e = Ok face <->
  0 <= e /\ mesh_triangles m !! Z.to_nat e = Some face.
Proof.
  unfold mesh_element, size.
  destruct (Z.leb_spec 0 e), (Z.ltb_spec e (Z.of_nat (length (mesh_triangles m))));
    cbn [andb].
  - destruct (mesh_triangles m !! Z.to_nat e) as [t|] eqn:Ht; split.
    + intros [= ->]. done.
    + intros [_ [= ->]]. done.
    + discriminate.
    + intros [_ [=]].
  - split; [discriminate|]. intros [_ Hl]. apply lookup_lt_Some in Hl. lia.
  - split; [discriminate|]. lia.
  - split; [discriminate|]. lia.
Qed.

Lemma mesh_vertex_Ok (m : TriangleSurfaceMesh) (v : Z) (p : Vector3d) :
  mesh_vertex m v = Ok p <-> 0 <= v /\ mesh_vertices m !! Z.to_nat v = Some p.
Proof.
  unfold mesh_vertex, size.
  destruct (Z.leb_spec 0 v), (Z.ltb_spec v (Z.of_nat (length (mesh_vertices m))));
    cbn [andb].
  - destruct (mesh_vertices m !! Z.to_nat v) as [t|] eqn:Ht; split.
    + intros [= ->]. done.
    + intros [_ [= ->]]. done.
    + discriminate.
    + intros [_ [=]].
  - split; [discriminate|]. intros [_ Hl]. apply lookup_lt_Some in Hl. lia.
  - split; [discriminate|]. lia.
  - split; [discriminate|]. lia.
Qed.

Lemma encode_triangle_Ok (surface : ContactSurface) (j : Z)
    (tri : lcmt_hydroelastic_contact_surface_tri_for_viz)
    (quad : lcmt_hydroelastic_quadrature_per_point_data_for_viz) :
  encode_triangle (mesh_W surface) (e_MN surface) j = Ok (tri, quad) ->
  exists face,
    mesh_triangles (mesh_W surface) !! Z.to_nat j = Some face /\
    triangle_encoded surface face tri quad.
Proof.
  unfold encode_triangle, EvaluateAtVertex. intros H.
  apply bind_Ok in H as (face & Hface & H). apply mesh_element_Ok in Hface as [_ Hface].
  apply bind_Ok in H as (vA & HvA & H). apply mesh_vertex_Ok in HvA as [_ HvA].
  apply bind_Ok in H as (vB & HvB & H). apply mesh_vertex_Ok in HvB as [_ HvB].
  apply bind_Ok in H as (vC & HvC & H). apply mesh_vertex_Ok in HvC as [_ HvC].
  apply bind_Ok in H as (pA & HpA & H). apply vec_at_Ok in HpA as [_ HpA].
  apply bind_Ok in H as (pB & HpB & H). apply vec_at_Ok in HpB as [_ HpB].
  apply bind_Ok in H as (pC & HpC & H). apply vec_at_Ok in HpC as [_ HpC].
  injection H as <- <-.
  exists face. split; [exact Hface|].
  exists vA, vB, vC, pA, pB, pC. done.
Qed.

Lemma lookup_seqZ_0 (n : Z) (j : nat) :
  Z.of_nat j < n -> seqZ 0 n !! j = Some (Z.of_nat j).
Proof. intros H. apply lookup_seqZ. lia. Qed.

(** Every record of an encoded surface, by position. *)
Lemma encode_surface_triangles (surface : ContactSurface)
    (sm : lcmt_hydroelastic_contact_surface_for_viz) :
  encode_surface surface = Ok sm ->
  length (surf_triangles sm) = Z.to_nat (num_triangles (mesh_W surface)) /\
  length (surf_quadrature_point_data sm) = Z.to_nat (num_triangles (mesh_W surface)) /\
  forall j, (j < Z.to_nat (num_triangles (mesh_W surface)))%nat ->
    exists face tri quad,
      mesh_triangles (mesh_W surface) !! j = Some face /\
      surf_triangles sm !! j = Some tri /\
      surf_quadrature_point_data sm !! j = Some quad /\
      triangle_encoded surface face tri quad.
Proof.
  intros H. apply encode_surface_Ok in H as (Hn & tq & Htq & ->).
  cbn [surf_triangles surf_quadrature_point_data].
  pose proof (mapM_Ok_length _ _ _ Htq) as Hlen. rewrite length_seqZ in Hlen.
  rewrite !length_fmap. split; [exact Hlen|]. split; [exact Hlen|].
  intros j Hj.
  destruct (mapM_Ok_lookup _ _ _ j (Z.of_nat j) Htq) as ([tri quad] & Hl & He).
  { apply lookup_seqZ_0. lia. }
  apply encode_triangle_Ok in He as (face & Hface & Henc).
  rewrite Nat2Z.id in Hface.
  exists face, tri, quad. rewrite !list_lookup_fmap, Hl. done.
Qed.

(** ** Conversion of the time to microseconds *)

Lemma Qtruncate_pos (n : positive) (d : positive) :
  Qtruncate (Z.pos n # d) = Z.pos n / Z.pos d.
Proof. reflexivity. Qed.

Lemma Qtruncate_neg (n : positive) (d : positive) :
  Qtruncate (- (Z.pos n # d)) = - (Z.pos n / Z.pos d).
Proof. reflexivity. Qed.

Lemma truncate_spec_float_exact (f : spec_float) (p : Q) :
  Q_of_spec_float f = Some p -> truncate_spec_float f = Some (Qtruncate p).
Proof.
  destruct f as [s| | |s m e]; cbn [Q_of_spec_float truncate_spec_float];
    try discriminate.
  - intros [= <-]. reflexivity.
  - intros [= <-]. f_equal.
    destruct (Z.leb_spec 0 e) as [He|He].
    + rewrite Z.shiftl_mul_pow2 by lia.
      assert (Hpos : 0 < Z.pos m * 2 ^ e) by (apply Z.mul_pos_pos; lia).
      destruct (Z.pos m * 2 ^ e) as [|n|n] eqn:Hn; try lia.
      destruct s; [rewrite Qtruncate_neg | rewrite Qtruncate_pos];
        rewrite Z.div_1_r; reflexivity.
    + assert (Hsh : Z.shiftl (Z.pos m) e = Z.pos m / 2 ^ (- e)).
      { rewrite <- (Z.shiftr_div_pow2 _ (- e)) by lia.
        rewrite <- Z.shiftl_opp_r. f_equal. lia. }
      rewrite Hsh.
      assert (Hpos : 0 < 2 ^ (- e)) by (apply Z.pow_pos_nonneg; lia).
      destruct s; [rewrite Qtruncate_neg | rewrite Qtruncate_pos];
        rewrite Z2Pos.id by lia; reflexivity.
Qed.

Lemma double_to_int64_Ok (d : double) (z : Z) :
  double_to_int64 d = Ok z ->
  exists p, Q_of_double d = Some p /\ z = Qtruncate p /\
            - 9223372036854775808 <= z <= 9223372036854775807.
Proof.
  unfold double_to_int64, Q_of_double. intros H.
  destruct (Q_of_spec_float (Prim2SF d)) as [p|] eqn:Hp.
  - rewrite (truncate_spec_float_exact _ _ Hp) in H.
    destruct (Z.leb_spec (- 9223372036854775808) (Qtruncate p)),
             (Z.leb_spec (Qtruncate p) 9223372036854775807);
      cbn [andb] in H; try discriminate.
    injection H as <-. exists p. split; [reflexivity|]. split; [reflexivity | lia].
  - destruct (Prim2SF d); cbn in Hp, H; discriminate.
Qed.


(** For a non-negative value truncation is the floor: the largest integer
    not above it. *)
Lemma Qtruncate_nonneg (p : Q) :
  (0 <= p)%Q ->
  (inject_Z (Qtruncate p) <= p)%Q /\ (p < inject_Z (Qtruncate p + 1))%Q.
Proof.
  intros Hp. unfold Qtruncate.
  apply Qle_bool_iff in Hp. rewrite Hp.
  split; [apply Qfloor_le | apply Qlt_floor].
Qed.

Lemma CalcContactResults_timestamp (strict : bool) (context : Context)
    (results out : lcmt_contact_results_for_viz) :
  CalcContactResults strict context results = Ok out ->
  double_to_int64 (get_time context * 1e6)%float = Ok (msg_timestamp out).
Proof.
  rewrite CalcContactResults_pure. intros H.
  apply encode_message_Ok in H as (? & ? & ts & ? & ? & _ & Hts & _ & _ & _ & _ & ->).
  exact Hts.
Qed.

(** ** Point pairs *)

Lemma encode_point_pair_Ok (query_object : QueryObject) (ts : Z)
    (pair : PenetrationAsPointPair) (body2 : string)
    (info : lcmt_point_pair_contact_info_for_viz) :
  encode_point_pair query_object ts pair body2 = Ok info ->
  exists name_A name_B,
    GetName query_object (id_A pair) = Ok name_A /\
    GetName query_object (id_B pair) = Ok name_B /\
    info = InfoMsg ts name_B body2
             (of_vector (vec_div (vec_add (p_WCa pair) (p_WCb pair)) 2%float))
             (of_vector (nhat_BA_W pair)) (of_vector (nhat_BA_W pair)).
Proof.
  unfold encode_point_pair. intros H.
  apply bind_Ok in H as (name_A & HA & H).
  apply bind_Ok in H as (name_B & HB & [= <-]).
  exists name_A, name_B. done.
Qed.

Lemma kept_body2_names_empty (n : Z) (msg : lcmt_contact_results_for_viz) :
  body2_names_empty msg ->
  kept_body2_names n msg = replicate (Z.to_nat n) "".
Proof.
  intros H. unfold kept_body2_names. symmetry. apply replicate_as_Forall.
  rewrite length_fmap, length_resize. split; [reflexivity|].
  apply Forall_fmap, Forall_resize.
  - reflexivity.
  - eapply Forall_impl; [exact H|]. intros info Hi. symmetry. exact Hi.
Qed.

Lemma encode_message_body2_names (strict : bool) (context : Context)
    (msg out : lcmt_contact_results_for_viz) :
  encode_message strict context msg = Ok out ->
  forall i info, msg_point_pair_contact_info out !! i = Some info ->
    kept_body2_names (msg_num_point_pair_contacts out) msg !! i
      = Some (info_body2_name info).
Proof.
  intros H i info Hi.
  apply encode_message_Ok in H
    as (surfaces & points & ts & surfs & infos & _ & _ & _ & _ & _ & Hinfos & ->).
  cbn [msg_point_pair_contact_info msg_num_point_pair_contacts] in *.
  destruct (mapM_Ok_lookup_inv _ _ _ _ _ Hinfos Hi) as ([pair name] & Hz & He).
  apply lookup_zip_with_Some in Hz as (pair' & name' & [= <- <-] & _ & Hname).
  apply encode_point_pair_Ok in He as (? & ? & _ & _ & ->). exact Hname.
Qed.

Lemma reachable_body2_names_empty (msg : lcmt_contact_results_for_viz) :
  reachable msg -> body2_names_empty msg.
Proof.
  induction 1 as [|strict context msg msg' _ IH Hcalc].
  - constructor.
  - rewrite CalcContactResults_pure in Hcalc.
    apply Forall_lookup. intros i info Hi.
    pose proof (encode_message_body2_names _ _ _ _ Hcalc i info Hi) as Hk.
    rewrite (kept_body2_names_empty _ _ IH) in Hk.
    apply lookup_replicate in Hk as [Hk _]. exact Hk.
Qed.

Lemma encode_message_prior (strict : bool) (context : Context)
    (msg1 msg2 : lcmt_contact_results_for_viz) :
  body2_names_empty msg1 -> body2_names_empty msg2 ->
  encode_message strict context msg1 = encode_message strict context msg2.
Proof.
  intros H1 H2. unfold encode_message.
  destruct (compute_contacts strict (query_port context)) as [contacts|e];
    [|reflexivity].
  cbn [mbind result_bind].
  rewrite (kept_body2_names_empty _ _ H1), (kept_body2_names_empty _ _ H2).
  reflexivity.
Qed.

(** ** Well-formed inputs are encoded *)




(** * The claims *)

(** C1.  The code does not do what the claim asks: both lookups of a point
    pair are stored into [body1_name].  At the pair of scenario C, between
    the bodies "ball" (id_A) and "can1" (id_B), the record ends with
    [body1_name = "can1"] and an empty [body2_name], where the claim requires
    "ball" and "can1". *)
Theorem point_pair_names_defect :
  GetName scenario_query (id_A scenario_C_pair) = Ok "ball" /\
  GetName scenario_query (id_B scenario_C_pair) = Ok "can1" /\
  exists out info,
    CalcContactResults false scenario_context results_default = Ok out /\
    msg_point_pair_contact_info out = [info] /\
    info_body1_name info = "can1" /\
    info_body2_name info = "".
Proof.
  split; [reflexivity|]. split; [reflexivity|].
  eexists. eexists. split; [vm_compute; reflexivity|].
  cbn [msg_point_pair_contact_info info_body1_name info_body2_name]. done.
Qed.

(** C2, as the code has it.  The timestamp is the double product
    [time * 1e6] truncated toward zero, not rounded to the nearest integer:
    whenever the call returns, that product is finite with exact value [p],
    the timestamp is the truncation of [p], and for [p >= 0] it is the
    largest integer not above [p]. *)
Theorem timestamp_truncates (strict : bool) (context : Context)
    (results out : lcmt_contact_results_for_viz) :
  CalcContactResults strict context results = Ok out ->
  exists p,
    Q_of_double (get_time context * 1e6)%float = Some p /\
    msg_timestamp out = Qtruncate p /\
    ((0 <= p)%Q ->
     (inject_Z (msg_timestamp out) <= p)%Q /\
     (p < inject_Z (msg_timestamp out + 1))%Q).
Proof.
  intros H. apply CalcContactResults_timestamp in H.
  apply double_to_int64_Ok in H as (p & Hp & Hts & _).
  exists p. split; [exact Hp|]. split; [exact Hts|].
  intros Hnn. rewrite Hts. apply Qtruncate_nonneg, Hnn.
Qed.

Lemma timestamp_truncates_witness :
  CalcContactResults true scenario_context results_default = Ok scenario_strict_out /\
  exists p,
    Q_of_double (get_time scenario_context * 1e6)%float = Some p /\
    msg_timestamp scenario_strict_out = Qtruncate p /\
    ((0 <= p)%Q ->
     (inject_Z (msg_timestamp scenario_strict_out) <= p)%Q /\
     (p < inject_Z (msg_timestamp scenario_strict_out + 1))%Q).
Proof.
  split; [vm_compute; reflexivity|].
  apply (timestamp_truncates true scenario_context results_default).
  vm_compute. reflexivity.
Defined.

(** C2, as the claim words it, fails.  At the non-negative time 2^-20 s
    (0.95367431640625 microseconds, an exact product) the message carries
    timestamp 0, while rounding to the nearest microsecond gives 1. *)
Lemma timestamp_round_counterexample :
  exists t out,
    Q_of_double (get_time sub_microsecond_context) = Some t /\
    (0 <= t)%Q /\ (t == 1 # 1048576)%Q /\
    CalcContactResults true sub_microsecond_context results_default = Ok out /\
    msg_timestamp out = 0 /\
    timestamp_spec t = 1.
Proof.
  eexists. eexists.
  split; [vm_compute; reflexivity|].
  split; [vm_compute; discriminate|].
  split; [vm_compute; reflexivity|].
  split; [vm_compute; reflexivity|].
  split; [reflexivity | vm_compute; reflexivity].
Qed.

(** ** Shapes of the returned message *)

Lemma CalcContactResults_Ok (strict : bool) (context : Context)
    (results out : lcmt_contact_results_for_viz) :
  CalcContactResults strict context results = Ok out ->
  exists surfaces points,
    compute_contacts strict (query_port context) = Ok (surfaces, points) /\
    msg_num_hydroelastic_contacts out = static_cast_int (size surfaces) /\
    msg_num_point_pair_contacts out = static_cast_int (size points) /\
    0 <= msg_num_hydroelastic_contacts out /\
    0 <= msg_num_point_pair_contacts out /\
    length (msg_hydroelastic_contacts out)
      = Z.to_nat (msg_num_hydroelastic_contacts out) /\
    length (msg_point_pair_contact_info out)
      = Z.to_nat (msg_num_point_pair_contacts out) /\
    mapM encode_surface (take (Z.to_nat (msg_num_hydroelastic_contacts out)) surfaces)
      = Ok (msg_hydroelastic_contacts out) /\
    mapM (λ p, encode_point_pair (query_port context) (msg_timestamp out) p.1 p.2)
      (zip (take (Z.to_nat (msg_num_point_pair_contacts out)) points)
           (kept_body2_names (msg_num_point_pair_contacts out) results))
      = Ok (msg_point_pair_contact_info out).
Proof.
  rewrite CalcContactResults_pure. intros H.
  apply encode_message_Ok in H
    as (surfaces & points & ts & surfs & infos & Hc & _ & Hp & Hs & Hsurfs & Hinfos & ->).
  cbn [msg_num_hydroelastic_contacts msg_num_point_pair_contacts
       msg_hydroelastic_contacts msg_point_pair_contact_info msg_timestamp].
  exists surfaces, points.
  repeat (split; [first [assumption | reflexivity]|]).
  split; [|split; [|split; assumption]].
  - rewrite (mapM_Ok_length _ _ _ Hsurfs), length_take_le; [reflexivity|].
    apply narrowed_size_fits.
  - rewrite (mapM_Ok_length _ _ _ Hinfos), length_zip_with.
    unfold kept_body2_names. rewrite length_fmap, length_resize.
    rewrite length_take_le by apply narrowed_size_fits. lia.
Qed.

Lemma output_surface_inv (strict : bool) (context : Context)
    (results out : lcmt_contact_results_for_viz) (i : nat)
    (sm : lcmt_hydroelastic_contact_surface_for_viz) :
  CalcContactResults strict context results = Ok out ->
  msg_hydroelastic_contacts out !! i = Some sm ->
  exists surfaces points surface,
    compute_contacts strict (query_port context) = Ok (surfaces, points) /\
    surfaces !! i = Some surface /\
    encode_surface surface = Ok sm.
Proof.
  intros H Hi.
  apply CalcContactResults_Ok in H
    as (surfaces & points & Hc & _ & _ & _ & _ & _ & _ & Hsurfs & _).
  destruct (mapM_Ok_lookup_inv _ _ _ _ _ Hsurfs Hi) as (surface & Hl & He).
  apply lookup_take_Some in Hl as [Hl _].
  exists surfaces, points, surface. done.
Qed.

Lemma output_surface (strict : bool) (context : Context)
    (results out : lcmt_contact_results_for_viz)
    (surfaces : list ContactSurface) (points : list PenetrationAsPointPair)
    (i : nat) (surface : ContactSurface) :
  CalcContactResults strict context results = Ok out ->
  compute_contacts strict (query_port context) = Ok (surfaces, points) ->
  size surfaces <= INT_MAX ->
  surfaces !! i = Some surface ->
  exists sm,
    msg_hydroelastic_contacts out !! i = Some sm /\ encode_surface surface = Ok sm.
Proof.
  intros H Hc Hmax Hi.
  apply CalcContactResults_Ok in H
    as (surfaces' & points' & Hc' & Hns & _ & _ & _ & _ & _ & Hsurfs & _).
  rewrite Hc in Hc'. injection Hc' as <- <-.
  rewrite Hns, static_cast_int_small in Hsurfs by (unfold size in *; lia).
  unfold size in Hsurfs. rewrite Nat2Z.id, firstn_all in Hsurfs.
  apply (mapM_Ok_lookup _ _ _ _ _ Hsurfs Hi).
Qed.

(** C3.  In every message the call returns, each count field is the length
    of its array: in the message for both kinds of contact, and in every
    surface record for the triangles and the quadrature points, whose two
    arrays have the same length.  When the query reports no contact at all,
    both counts are 0 and both arrays are empty. *)
Theorem counts_match_lengths (strict : bool) (context : Context)
    (results out : lcmt_contact_results_for_viz) :
  CalcContactResults strict context results = Ok out ->
  (msg_num_hydroelastic_contacts out = size (msg_hydroelastic_contacts out) /\
   msg_num_point_pair_contacts out = size (msg_point_pair_contact_info out)) /\
  Forall (λ sm,
            surf_num_triangles sm = size (surf_triangles sm) /\
            size (surf_triangles sm) = size (surf_quadrature_point_data sm) /\
            size (surf_quadrature_point_data sm) = surf_num_quadrature_points sm)
         (msg_hydroelastic_contacts out) /\
  (compute_contacts strict (query_port context) = Ok ([], []) ->
   msg_num_hydroelastic_contacts out = 0 /\
   msg_num_point_pair_contacts out = 0 /\
   msg_hydroelastic_contacts out = [] /\
   msg_point_pair_contact_info out = []).
Proof.
  intros H.
  pose proof (CalcContactResults_Ok _ _ _ _ H)
    as (surfaces & points & Hc & Hns & Hnp & Hs0 & Hp0 & Hls & Hlp & _ & _).
  split; [unfold size; lia|]. split.
  - apply Forall_lookup. intros i sm Hi.
    destruct (output_surface_inv _ _ _ _ _ _ H Hi) as (? & ? & surface & _ & _ & He).
    pose proof (encode_surface_triangles _ _ He) as (Ht & Hq & _).
    apply encode_surface_Ok in He as (Hn & tq & _ & ->).
    cbn [surf_num_triangles surf_num_quadrature_points surf_triangles
         surf_quadrature_point_data] in *.
    unfold size. lia.
  - intros Hempty. rewrite Hempty in Hc. injection Hc as <- <-.
    change (static_cast_int (size [])) with 0 in *.
    rewrite Hns in Hls. rewrite Hnp in Hlp.
    apply nil_length_inv in Hls. apply nil_length_inv in Hlp. done.
Qed.

Lemma counts_match_lengths_witness :
  (msg_num_hydroelastic_contacts scenario_fallback_out
     = size (msg_hydroelastic_contacts scenario_fallback_out) /\
   msg_num_point_pair_contacts scenario_fallback_out
     = size (msg_point_pair_contact_info scenario_fallback_out)) /\
  (msg_num_hydroelastic_contacts quiet_out = 0 /\
   msg_num_point_pair_contacts quiet_out = 0 /\
   msg_hydroelastic_contacts quiet_out = [] /\
   msg_point_pair_contact_info quiet_out = []).
Proof.
  split.
  - apply (counts_match_lengths false scenario_context results_default).
    vm_compute. reflexivity.
  - apply (counts_match_lengths true sub_microsecond_context results_default).
    + vm_compute. reflexivity.
    + reflexivity.
Defined.

(** C7.  In every message the call returns, whatever the meshes, the
    pressure fields and the time, each surface record carries the force
    (1, 0, 0) and the moment (0, 0, 1), and each of its quadrature records
    the slip velocity (0, 0.2, 0) and the traction (0, -0.2, 0). *)
Theorem placeholder_vectors_constant (strict : bool) (context : Context)
    (results out : lcmt_contact_results_for_viz) :
  CalcContactResults strict context results = Ok out ->
  Forall (λ sm,
            surf_force_C_W sm = Double3 1%float 0%float 0%float /\
            surf_moment_C_W sm = Double3 0%float 0%float 1%float /\
            Forall (λ quad,
                      quad_vt_BqAq_W quad = Double3 0%float 0.2%float 0%float /\
                      quad_traction_Aq_W quad
                        = Double3 0%float (-0.2)%float 0%float)
                   (surf_quadrature_point_data sm))
         (msg_hydroelastic_contacts out).
Proof.
  intros H. apply Forall_lookup. intros i sm Hi.
  destruct (output_surface_inv _ _ _ _ _ _ H Hi) as (? & ? & surface & _ & _ & He).
  pose proof (encode_surface_triangles _ _ He) as (_ & Hq & Htri).
  apply encode_surface_Ok in He as (_ & tq & _ & Hsm).
  split; [rewrite Hsm; reflexivity|]. split; [rewrite Hsm; reflexivity|].
  apply Forall_lookup. intros j quad Hj.
  destruct (Htri j) as (face & tri & quad' & _ & _ & Hj' & Henc).
  { rewrite <- Hq. apply lookup_lt_is_Some_1. eauto. }
  rewrite Hj in Hj'. injection Hj' as <-.
  destruct Henc as (? & ? & ? & ? & ? & ? & _ & _ & _ & ->). done.
Qed.

Lemma placeholder_vectors_constant_witness :
  CalcContactResults true scenario_context results_default = Ok scenario_strict_out /\
  Forall (λ sm,
            surf_force_C_W sm = Double3 1%float 0%float 0%float /\
            surf_moment_C_W sm = Double3 0%float 0%float 1%float /\
            Forall (λ quad,
                      quad_vt_BqAq_W quad = Double3 0%float 0.2%float 0%float /\
                      quad_traction_Aq_W quad
                        = Double3 0%float (-0.2)%float 0%float)
                   (surf_quadrature_point_data sm))
         (msg_hydroelastic_contacts scenario_strict_out).
Proof.
  split; [vm_compute; reflexivity|].
  apply (placeholder_vectors_constant true scenario_context results_default).
  vm_compute. reflexivity.
Defined.

Lemma output_pair_inv (strict : bool) (context : Context)
    (results out : lcmt_contact_results_for_viz) (i : nat)
    (info : lcmt_point_pair_contact_info_for_viz) :
  CalcContactResults strict context results = Ok out ->
  msg_point_pair_contact_info out !! i = Some info ->
  exists surfaces points pair,
    compute_contacts strict (query_port context) = Ok (surfaces, points) /\
    points !! i = Some pair /\
    kept_body2_names (msg_num_point_pair_contacts out) results !! i
      = Some (info_body2_name info) /\
    encode_point_pair (query_port context) (msg_timestamp out) pair
      (info_body2_name info) = Ok info.
Proof.
  intros H Hi.
  apply CalcContactResults_Ok in H
    as (surfaces & points & Hc & _ & _ & _ & _ & _ & _ & _ & Hinfos).
  destruct (mapM_Ok_lookup_inv _ _ _ _ _ Hinfos Hi) as ([pair name] & Hz & He).
  apply lookup_zip_with_Some in Hz as (pair' & name' & [= <- <-] & Hpair & Hname).
  apply lookup_take_Some in Hpair as [Hpair _].
  cbn [fst snd] in He.
  pose proof (encode_point_pair_Ok _ _ _ _ _ He) as (? & ? & _ & _ & Hinfo).
  assert (Hb : info_body2_name info = name) by (rewrite Hinfo; reflexivity).
  rewrite Hb. exists surfaces, points, pair. done.
Qed.

Lemma output_pair (strict : bool) (context : Context)
    (results out : lcmt_contact_results_for_viz)
    (surfaces : list ContactSurface) (points : list PenetrationAsPointPair)
    (i : nat) (pair : PenetrationAsPointPair) :
  CalcContactResults strict context results = Ok out ->
  compute_contacts strict (query_port context) = Ok (surfaces, points) ->
  size points <= INT_MAX ->
  points !! i = Some pair ->
  exists info,
    msg_point_pair_contact_info out !! i = Some info /\
    encode_point_pair (query_port context) (msg_timestamp out) pair
      (info_body2_name info) = Ok info.
Proof.
  intros H Hc Hmax Hi.
  pose proof (CalcContactResults_Ok _ _ _ _ H)
    as (surfaces' & points' & Hc' & _ & Hnp & _ & _ & _ & Hlen & _ & _).
  rewrite Hc in Hc'. injection Hc' as <- <-.
  rewrite Hnp, static_cast_int_small in Hlen by (unfold size in *; lia).
  unfold size in Hlen. rewrite Nat2Z.id in Hlen.
  destruct (lookup_lt_is_Some_2 (msg_point_pair_contact_info out) i) as [info Hinfo].
  { rewrite Hlen. apply lookup_lt_is_Some_1. eauto. }
  destruct (output_pair_inv _ _ _ _ _ _ H Hinfo)
    as (surfaces' & points' & pair' & Hc' & Hpair & _ & He).
  rewrite Hc in Hc'. injection Hc' as <- <-.
  rewrite Hi in Hpair. injection Hpair as <-.
  exists info. done.
Qed.

(** C4.  Whenever the call returns, the record of surface [i] has one
    triangle and one quadrature record per mesh face, in face order: for face
    [j], naming the vertices [vA], [vB], [vC], the [j]-th triangle record
    holds these three positions and the field values at the same three
    indices, and the [j]-th quadrature point is their mean
    [(vA + vB + vC) / 3].  On the mesh of scenario B this gives
    p_WA = (0,0,0), pressures 10, 20, 30 and the quadrature point
    (1/3, 1/3, 0). *)
Theorem triangles_encoded_in_face_order :
  (forall (strict : bool) (context : Context)
      (results out : lcmt_contact_results_for_viz)
      (surfaces : list ContactSurface) (points : list PenetrationAsPointPair)
      (i : nat) (surface : ContactSurface) (j : nat) (face : SurfaceTriangle),
    CalcContactResults strict context results = Ok out ->
    compute_contacts strict (query_port context) = Ok (surfaces, points) ->
    size surfaces <= INT_MAX ->
    surfaces !! i = Some surface ->
    size (mesh_triangles (mesh_W surface)) <= INT_MAX ->
    mesh_triangles (mesh_W surface) !! j = Some face ->
    exists sm tri quad vA vB vC,
      msg_hydroelastic_contacts out !! i = Some sm /\
      length (surf_triangles sm) = length (mesh_triangles (mesh_W surface)) /\
      length (surf_quadrature_point_data sm)
        = length (mesh_triangles (mesh_W surface)) /\
      surf_triangles sm !! j = Some tri /\
      surf_quadrature_point_data sm !! j = Some quad /\
      mesh_vertices (mesh_W surface) !! Z.to_nat (tv0 face) = Some vA /\
      mesh_vertices (mesh_W surface) !! Z.to_nat (tv1 face) = Some vB /\
      mesh_vertices (mesh_W surface) !! Z.to_nat (tv2 face) = Some vC /\
      tri_p_WA tri = Double3 (vx vA) (vy vA) (vz vA) /\
      tri_p_WB tri = Double3 (vx vB) (vy vB) (vz vB) /\
      tri_p_WC tri = Double3 (vx vC) (vy vC) (vz vC) /\
      field_values (e_MN surface) !! Z.to_nat (tv0 face) = Some (tri_pressure_A tri) /\
      field_values (e_MN surface) !! Z.to_nat (tv1 face) = Some (tri_pressure_B tri) /\
      field_values (e_MN surface) !! Z.to_nat (tv2 face) = Some (tri_pressure_C tri) /\
      quad_p_WQ quad
        = Double3 ((vx vA + vx vB + vx vC) / 3)%float
                  ((vy vA + vy vB + vy vC) / 3)%float
                  ((vz vA + vz vB + vz vC) / 3)%float) /\
  (exists out sm quad,
     CalcContactResults true scenario_context results_default = Ok out /\
     msg_hydroelastic_contacts out = [sm] /\
     surf_triangles sm
       = [TriMsg (Double3 0%float 0%float 0%float)
                 (Double3 1%float 0%float 0%float)
                 (Double3 0%float 1%float 0%float)
                 10%float 20%float 30%float] /\
     surf_quadrature_point_data sm = [quad] /\
     quad_p_WQ quad = Double3 (1 / 3)%float (1 / 3)%float 0%float).
Proof.
  split.
  - intros strict context results out surfaces points i surface j face
      H Hc Hmax Hi Hfaces Hj.
    destruct (output_surface _ _ _ _ _ _ _ _ H Hc Hmax Hi) as (sm & Hsm & He).
    pose proof (encode_surface_triangles _ _ He) as (Ht & Hq & Htri).
    unfold num_triangles in Ht, Hq, Htri.
    rewrite static_cast_int_small in Ht, Hq, Htri by (unfold size in *; lia).
    unfold size in Ht, Hq, Htri. rewrite Nat2Z.id in Ht, Hq, Htri.
    destruct (Htri j) as (face' & tri & quad & Hface & Htj & Hqj & Henc).
    { apply lookup_lt_is_Some_1. eauto. }
    rewrite Hj in Hface. injection Hface as <-.
    destruct Henc as (vA & vB & vC & pA & pB & pC
                      & (HvA & HvB & HvC) & (HpA & HpB & HpC) & Etri & Equad).
    exists sm, tri, quad, vA, vB, vC. subst tri quad.
    cbn [tri_p_WA tri_p_WB tri_p_WC tri_pressure_A tri_pressure_B tri_pressure_C
         quad_p_WQ].
    repeat (split; [first [assumption | reflexivity]|]). reflexivity.
  - eexists. eexists. eexists.
    split; [vm_compute; reflexivity|].
    split; [reflexivity|]. split; [reflexivity|]. split; reflexivity.
Qed.

Lemma triangles_encoded_in_face_order_witness :
  exists sm tri quad vA vB vC,
    msg_hydroelastic_contacts scenario_strict_out !! 0%nat = Some sm /\
    length (surf_triangles sm) = 1%nat /\
    length (surf_quadrature_point_data sm) = 1%nat /\
    surf_triangles sm !! 0%nat = Some tri /\
    surf_quadrature_point_data sm !! 0%nat = Some quad /\
    mesh_vertices scenario_B_mesh !! 0%nat = Some vA /\
    mesh_vertices scenario_B_mesh !! 1%nat = Some vB /\
    mesh_vertices scenario_B_mesh !! 2%nat = Some vC /\
    tri_p_WA tri = Double3 (vx vA) (vy vA) (vz vA) /\
    tri_p_WB tri = Double3 (vx vB) (vy vB) (vz vB) /\
    tri_p_WC tri = Double3 (vx vC) (vy vC) (vz vC) /\
    Some 10%float = Some (tri_pressure_A tri) /\
    Some 20%float = Some (tri_pressure_B tri) /\
    Some 30%float = Some (tri_pressure_C tri) /\
    quad_p_WQ quad
      = Double3 ((vx vA + vx vB + vx vC) / 3)%float
                ((vy vA + vy vB + vy vC) / 3)%float
                ((vz vA + vz vB + vz vC) / 3)%float.
Proof.
  apply (proj1 triangles_encoded_in_face_order true scenario_context
           results_default scenario_strict_out [scenario_B_surface] []
           0%nat scenario_B_surface 0%nat (Triangle 0 1 2)).
  - vm_compute. reflexivity.
  - reflexivity.
  - vm_compute. discriminate.
  - reflexivity.
  - vm_compute. discriminate.
  - reflexivity.
Defined.

(** C5.  Whenever the call returns, the record of point pair [i] carries the
    message's timestamp, the midpoint [(p_WCa + p_WCb) / 2] as contact point,
    and the pair's normal both as contact force and as normal.  On the pair
    of scenario C this gives contact point (0, 0, 0.9) and force and normal
    (0, 0, 1). *)
Theorem point_pair_record_fields :
  (forall (strict : bool) (context : Context)
      (results out : lcmt_contact_results_for_viz)
      (surfaces : list ContactSurface) (points : list PenetrationAsPointPair)
      (i : nat) (pair : PenetrationAsPointPair),
    CalcContactResults strict context results = Ok out ->
    compute_contacts strict (query_port context) = Ok (surfaces, points) ->
    size points <= INT_MAX ->
    points !! i = Some pair ->
    exists info,
      msg_point_pair_contact_info out !! i = Some info /\
      info_timestamp info = msg_timestamp out /\
      info_contact_point info
        = Double3 ((vx (p_WCa pair) + vx (p_WCb pair)) / 2)%float
                  ((vy (p_WCa pair) + vy (p_WCb pair)) / 2)%float
                  ((vz (p_WCa pair) + vz (p_WCb pair)) / 2)%float /\
      info_contact_force info
        = Double3 (vx (nhat_BA_W pair)) (vy (nhat_BA_W pair)) (vz (nhat_BA_W pair)) /\
      info_normal info
        = Double3 (vx (nhat_BA_W pair)) (vy (nhat_BA_W pair)) (vz (nhat_BA_W pair))) /\
  (exists out info,
     CalcContactResults false scenario_context results_default = Ok out /\
     msg_point_pair_contact_info out = [info] /\
     info_timestamp info = msg_timestamp out /\
     info_contact_point info = Double3 0%float 0%float 0.9%float /\
     info_contact_force info = Double3 0%float 0%float 1%float /\
     info_normal info = Double3 0%float 0%float 1%float).
Proof.
  split.
  - intros strict context results out surfaces points i pair H Hc Hmax Hi.
    destruct (output_pair _ _ _ _ _ _ _ _ H Hc Hmax Hi) as (info & Hinfo & He).
    apply encode_point_pair_Ok in He as (nA & nB & _ & _ & Heq).
    exists info. split; [exact Hinfo|]. rewrite Heq. done.
  - eexists. eexists. split; [vm_compute; reflexivity|].
    split; [reflexivity|]. split; [reflexivity|]. split; [reflexivity|]. done.
Qed.

Lemma point_pair_record_fields_witness :
  exists info,
    msg_point_pair_contact_info scenario_fallback_out !! 0%nat = Some info /\
    info_timestamp info = msg_timestamp scenario_fallback_out /\
    info_contact_point info
      = Double3 ((vx (p_WCa scenario_C_pair) + vx (p_WCb scenario_C_pair)) / 2)%float
                ((vy (p_WCa scenario_C_pair) + vy (p_WCb scenario_C_pair)) / 2)%float
                ((vz (p_WCa scenario_C_pair) + vz (p_WCb scenario_C_pair)) / 2)%float /\
    info_contact_force info
      = Double3 (vx (nhat_BA_W scenario_C_pair)) (vy (nhat_BA_W scenario_C_pair))
                (vz (nhat_BA_W scenario_C_pair)) /\
    info_normal info
      = Double3 (vx (nhat_BA_W scenario_C_pair)) (vy (nhat_BA_W scenario_C_pair))
                (vz (nhat_BA_W scenario_C_pair)).
Proof.
  apply (proj1 point_pair_record_fields false scenario_context results_default
           scenario_fallback_out [scenario_B_surface] [scenario_C_pair]
           0%nat scenario_C_pair).
  - vm_compute. reflexivity.
  - reflexivity.
  - vm_compute. discriminate.
  - reflexivity.
Defined.

(** C6.  In strict mode a returned message comes from
    [ComputeContactSurfaces] alone: it has no point pair, its surface count
    is that of the computed surfaces, a failure of the computation is the
    failure of the call, and the outcome is the same whatever the fallback
    computation would have answered.  In the other mode the message comes
    from [ComputeContactSurfacesWithFallback] alone, whose two sequences
    give the two counts. *)
Theorem query_mode_selects_computation :
  (forall (context : Context) (results out : lcmt_contact_results_for_viz),
     CalcContactResults true context results = Ok out ->
     exists surfaces,
       ComputeContactSurfaces (query_port context) = Ok surfaces /\
       msg_num_hydroelastic_contacts out = static_cast_int (size surfaces) /\
       msg_num_point_pair_contacts out = 0 /\
       msg_point_pair_contact_info out = []) /\
  (forall (context : Context) (results : lcmt_contact_results_for_viz) (e : failure),
     ComputeContactSurfaces (query_port context) = Fail e ->
     CalcContactResults true context results = Fail e) /\
  (forall time strict_answer fallback fallback' names results,
     CalcContactResults true
       (MkContext time (Query strict_answer fallback names)) results =
     CalcContactResults true
       (MkContext time (Query strict_answer fallback' names)) results) /\
  (forall (context : Context) (results out : lcmt_contact_results_for_viz),
     CalcContactResults false context results = Ok out ->
     exists surfaces points,
       ComputeContactSurfacesWithFallback (query_port context)
         = Ok (surfaces, points) /\
       msg_num_hydroelastic_contacts out = static_cast_int (size surfaces) /\
       msg_num_point_pair_contacts out = static_cast_int (size points) /\
       size (msg_hydroelastic_contacts out) = static_cast_int (size surfaces) /\
       size (msg_point_pair_contact_info out) = static_cast_int (size points)) /\
  (forall time strict_answer strict_answer' fallback names results,
     CalcContactResults false
       (MkContext time (Query strict_answer fallback names)) results =
     CalcContactResults false
       (MkContext time (Query strict_answer' fallback names)) results).
Proof.
  split; [|split; [|split; [|split]]].
  - intros context results out H.
    apply CalcContactResults_Ok in H
      as (surfaces & points & Hc & Hns & Hnp & _ & _ & _ & Hlen & _ & _).
    unfold compute_contacts in Hc.
    apply bind_Ok in Hc as (surfaces' & Hs & [= <- <-]).
    change (static_cast_int (size [])) with 0 in Hnp.
    rewrite Hnp in Hlen. apply nil_length_inv in Hlen.
    exists surfaces'. done.
  - intros context results e He.
    unfold CalcContactResults, compute_contacts. rewrite He. reflexivity.
  - intros time strict_answer fallback fallback' names results.
    rewrite !CalcContactResults_pure. unfold encode_message, compute_contacts.
    cbn [query_port ComputeContactSurfaces get_time].
    destruct strict_answer as [surfaces|e]; [|reflexivity].
    cbn [mbind result_bind mret result_ret fst snd].
    rewrite take_nil. reflexivity.
  - intros context results out H.
    apply CalcContactResults_Ok in H
      as (surfaces & points & Hc & Hns & Hnp & Hs0 & Hp0 & Hls & Hlp & _ & _).
    exists surfaces, points.
    split; [exact Hc|]. split; [exact Hns|]. split; [exact Hnp|].
    rewrite <- Hns, <- Hnp. unfold size. lia.
  - intros time strict_answer strict_answer' fallback names results.
    rewrite !CalcContactResults_pure. reflexivity.
Qed.

Lemma query_mode_selects_computation_witness :
  (exists surfaces,
     ComputeContactSurfaces (query_port scenario_context) = Ok surfaces /\
     msg_num_hydroelastic_contacts scenario_strict_out
       = static_cast_int (size surfaces) /\
     msg_num_point_pair_contacts scenario_strict_out = 0 /\
     msg_point_pair_contact_info scenario_strict_out = []) /\
  (exists surfaces points,
     ComputeContactSurfacesWithFallback (query_port scenario_context)
       = Ok (surfaces, points) /\
     msg_num_hydroelastic_contacts scenario_fallback_out
       = static_cast_int (size surfaces) /\
     msg_num_point_pair_contacts scenario_fallback_out
       = static_cast_int (size points) /\
     size (msg_hydroelastic_contacts scenario_fallback_out)
       = static_cast_int (size surfaces) /\
     size (msg_point_pair_contact_info scenario_fallback_out)
       = static_cast_int (size points)).
Proof.
  split.
  - apply (proj1 query_mode_selects_computation scenario_context results_default).
    vm_compute. reflexivity.
  - apply (proj1 (proj2 (proj2 (proj2 query_mode_selects_computation)))
             scenario_context results_default).
    vm_compute. reflexivity.
Defined.

(** C8.  The outcome of a call is a function of the mode and the context
    alone: whatever earlier calls left in the output message, the same
    snapshot yields the same message (or the same failure), and calling again
    on the message just produced reproduces it. *)
Theorem encoding_independent_of_history (strict : bool) (context : Context)
    (results1 results2 : lcmt_contact_results_for_viz) :
  reachable results1 -> reachable results2 ->
  CalcContactResults strict context results1
    = CalcContactResults strict context results2 /\
  (forall out,
     CalcContactResults strict context results1 = Ok out ->
     CalcContactResults strict context out = Ok out).
Proof.
  intros H1 H2.
  assert (Hany : forall m1 m2, reachable m1 -> reachable m2 ->
            CalcContactResults strict context m1
              = CalcContactResults strict context m2).
  { intros m1 m2 Hm1 Hm2. rewrite !CalcContactResults_pure.
    apply encode_message_prior; apply reachable_body2_names_empty; assumption. }
  split; [apply Hany; assumption|].
  intros out Hout. rewrite <- Hout. apply Hany; [|exact H1].
  exact (reachable_calc _ _ _ _ H1 Hout).
Qed.

Lemma encoding_independent_of_history_witness :
  CalcContactResults false scenario_context results_default
    = CalcContactResults false scenario_context scenario_strict_out /\
  (forall out,
     CalcContactResults false scenario_context results_default = Ok out ->
     CalcContactResults false scenario_context out = Ok out).
Proof.
  apply (encoding_independent_of_history false scenario_context
           results_default scenario_strict_out).
  - exact reachable_default.
  - apply (reachable_calc true scenario_context results_default);
      [exact reachable_default | vm_compute; reflexivity].
Defined.

(** C9.  One step of the point-pair loop leaves everything in the message
    as it was except record [i], and in record [i] it leaves [body2_name] as
    it was; [body1_name] ends with the name looked up for [id_B], the store
    of the name of [id_A] being overwritten by the next statement.  Hence in
    every message produced from a value-initialised one, by any number of
    calls, [body2_name] of every point-pair record still is the empty
    default. *)
Theorem body2_name_never_assigned :
  (forall (query_object : QueryObject) (points : list PenetrationAsPointPair)
      (i : Z) (msg msg' : lcmt_contact_results_for_viz),
    point_pair_body query_object points i msg = Ok msg' ->
    exists old new pair name_A name_B,
      msg_point_pair_contact_info msg !! Z.to_nat i = Some old /\
      msg_point_pair_contact_info msg' !! Z.to_nat i = Some new /\
      points !! Z.to_nat i = Some pair /\
      GetName query_object (id_A pair) = Ok name_A /\
      GetName query_object (id_B pair) = Ok name_B /\
      info_body1_name new = name_B /\
      info_body2_name new = info_body2_name old /\
      (forall k, k <> Z.to_nat i ->
         msg_point_pair_contact_info msg' !! k
           = msg_point_pair_contact_info msg !! k) /\
      msg_timestamp msg' = msg_timestamp msg /\
      msg_num_point_pair_contacts msg' = msg_num_point_pair_contacts msg /\
      msg_num_hydroelastic_contacts msg' = msg_num_hydroelastic_contacts msg /\
      msg_hydroelastic_contacts msg' = msg_hydroelastic_contacts msg) /\
  (forall (name_A name_B : string) (info : lcmt_point_pair_contact_info_for_viz),
     set_info_body1_name name_B (set_info_body1_name name_A info)
       = set_info_body1_name name_B info) /\
  (forall (strict : bool) (context : Context)
      (results out : lcmt_contact_results_for_viz),
    reachable results ->
    CalcContactResults strict context results = Ok out ->
    Forall (λ info, info_body2_name info = info_body2_name info_default)
           (msg_point_pair_contact_info out)).
Proof.
  split; [|split].
  - intros query_object points i msg msg' H. unfold point_pair_body in H.
    apply bind_Ok in H as (old & Hold & H). apply vec_at_Ok in Hold as [Hi Hold].
    apply bind_Ok in H as (pair & Hpair & H). apply vec_at_Ok in Hpair as [_ Hpair].
    apply bind_Ok in H as (name_A & HA & H).
    apply bind_Ok in H as (name_B & HB & [= <-]).
    cbn [msg_point_pair_contact_info msg_timestamp msg_num_point_pair_contacts
         msg_num_hydroelastic_contacts msg_hydroelastic_contacts
         set_msg_point_pair_contact_info].
    eexists old, _, pair, name_A, name_B.
    split; [exact Hold|].
    split; [apply list_lookup_insert_eq, lookup_lt_is_Some_1; eauto|].
    split; [exact Hpair|]. split; [exact HA|]. split; [exact HB|].
    split; [reflexivity|]. split; [reflexivity|].
    split; [|done].
    intros k Hk. apply list_lookup_insert_ne. congruence.
  - reflexivity.
  - intros strict context results out Hr H.
    exact (reachable_body2_names_empty out (reachable_calc _ _ _ _ Hr H)).
Qed.

Lemma body2_name_never_assigned_witness :
  Forall (λ info, info_body2_name info = info_body2_name info_default)
         (msg_point_pair_contact_info scenario_fallback_out).
Proof.
  apply (proj2 (proj2 body2_name_never_assigned) false scenario_context
           results_default scenario_fallback_out).
  - exact reachable_default.
  - vm_compute. reflexivity.
Defined.

(** C10.  The counts are the sequence sizes narrowed to [int]: in every
    message the call returns, each count is [static_cast<int>] of the size of
    the sequence it was taken from, and it equals that size exactly when the
    size is at most 2^31 - 1; the same holds for the triangle count of each
    surface record and the face count of its mesh. *)
Theorem counts_are_narrowed_sizes (strict : bool) (context : Context)
    (results out : lcmt_contact_results_for_viz)
    (surfaces : list ContactSurface) (points : list PenetrationAsPointPair) :
  CalcContactResults strict context results = Ok out ->
  compute_contacts strict (query_port context) = Ok (surfaces, points) ->
  (msg_num_hydroelastic_contacts out = static_cast_int (size surfaces) /\
   (msg_num_hydroelastic_contacts out = size surfaces <-> size surfaces <= INT_MAX)) /\
  (msg_num_point_pair_contacts out = static_cast_int (size points) /\
   (msg_num_point_pair_contacts out = size points <-> size points <= INT_MAX)) /\
  (forall i sm surface,
     msg_hydroelastic_contacts out !! i = Some sm ->
     surfaces !! i = Some surface ->
     surf_num_triangles sm
       = static_cast_int (size (mesh_triangles (mesh_W surface))) /\
     (surf_num_triangles sm = size (mesh_triangles (mesh_W surface)) <->
      size (mesh_triangles (mesh_W surface)) <= INT_MAX)).
Proof.
  intros H Hc.
  pose proof (CalcContactResults_Ok _ _ _ _ H)
    as (surfaces' & points' & Hc' & Hns & Hnp & _).
  rewrite Hc in Hc'. injection Hc' as <- <-.
  split; [|split].
  - split; [exact Hns|]. rewrite Hns.
    apply static_cast_int_exact. unfold size. lia.
  - split; [exact Hnp|]. rewrite Hnp.
    apply static_cast_int_exact. unfold size. lia.
  - intros i sm surface Hi Hsurface.
    destruct (output_surface_inv _ _ _ _ _ _ H Hi)
      as (surfaces' & points' & surface' & Hc' & Hsurface' & He).
    rewrite Hc in Hc'. injection Hc' as <- <-.
    rewrite Hsurface in Hsurface'. injection Hsurface' as <-.
    apply encode_surface_Ok in He as (_ & tq & _ & ->).
    cbn [surf_num_triangles]. unfold num_triangles.
    split; [reflexivity|]. apply static_cast_int_exact. unfold size. lia.
Qed.

Lemma counts_are_narrowed_sizes_witness :
  (msg_num_hydroelastic_contacts scenario_fallback_out
     = static_cast_int (size [scenario_B_surface]) /\
   (msg_num_hydroelastic_contacts scenario_fallback_out = size [scenario_B_surface]
    <-> size [scenario_B_surface] <= INT_MAX)) /\
  (msg_num_point_pair_contacts scenario_fallback_out
     = static_cast_int (size [scenario_C_pair]) /\
   (msg_num_point_pair_contacts scenario_fallback_out = size [scenario_C_pair]
    <-> size [scenario_C_pair] <= INT_MAX)) /\
  (forall i sm surface,
     msg_hydroelastic_contacts scenario_fallback_out !! i = Some sm ->
     [scenario_B_surface] !! i = Some surface ->
     surf_num_triangles sm
       = static_cast_int (size (mesh_triangles (mesh_W surface))) /\
     (surf_num_triangles sm = size (mesh_triangles (mesh_W surface)) <->
      size (mesh_triangles (mesh_W surface)) <= INT_MAX)).
Proof.
  apply (counts_are_narrowed_sizes false scenario_context results_default
           scenario_fallback_out [scenario_B_surface] [scenario_C_pair]).
  - vm_compute. reflexivity.
  - reflexivity.
Defined.

(** Beyond [INT_MAX] the count is not the size: with 2^32 contact surfaces
    the narrowed count is 0 and the message declares, and holds, none. *)
Lemma narrowing_drops_surfaces (surface : ContactSurface) (n : nat)
    (results : lcmt_contact_results_for_viz) :
  Z.of_nat n = 4294967296 ->
  exists out,
    CalcContactResults true
      (MkContext 0%float (Query (Ok (replicate n surface)) (Ok ([], [])) scenario_names))
      results = Ok out /\
    msg_num_hydroelastic_contacts out = 0 /\
    msg_hydroelastic_contacts out = [] /\
    size (replicate n surface) = 4294967296.
Proof.
  intros Hn.
  assert (Hsize : size (replicate n surface) = 4294967296).
  { unfold size. rewrite length_replicate. exact Hn. }
  rewrite CalcContactResults_pure. unfold encode_message, compute_contacts.
  cbn [query_port ComputeContactSurfaces get_time mbind result_bind mret
       result_ret fst snd].
  rewrite Hsize.
  change (static_cast_int 4294967296) with 0.
  change (static_cast_int (size [])) with 0.
  change (double_to_int64 (0 * 1000000)%float) with (@Ok Z 0).
  cbn [mbind result_bind Z.ltb Z.compare Z.to_nat take mapM zip zip_with].
  eexists. split; [reflexivity|]. done.
Qed.

(** ** The decimal values of the scenarios

    The doubles written 1/3 and 0.9 above are the binary64 numbers nearest
    to the rationals 1/3 and 9/10. *)
Lemma scenario_values_nearest :
  (exists q, Q_of_double (1 / 3)%float = Some q /\
             (Qabs (q - (1 # 3)) <= 1 # 36028797018963968)%Q) /\
  (exists q, Q_of_double 0.9%float = Some q /\
             (Qabs (q - (9 # 10)) <= 1 # 18014398509481984)%Q).
Proof.
  split; eexists; (split; [vm_compute; reflexivity | vm_compute; discriminate]).
Qed.

(** * Further properties of the calculation *)

(** ** When a message is returned *)





(** ** The output buffer *)

Lemma encode_point_pair_any_name (query_object : QueryObject) (ts : Z)
    (pair : PenetrationAsPointPair) (name1 name2 : string) :
  match encode_point_pair query_object ts pair name1,
        encode_point_pair query_object ts pair name2
  with
  | Ok info1, Ok info2 => same_except_body2_name info1 info2
  | Fail e1, Fail e2 => e1 = e2
  | _, _ => False
  end.
Proof.
  unfold encode_point_pair.
  destruct (GetName query_object (id_A pair)) as [nA|e]; [|reflexivity].
  destruct (GetName query_object (id_B pair)) as [nB|e]; [|reflexivity].
  cbn [mbind result_bind mret result_ret]. repeat split.
Qed.

Lemma encode_pairs_any_names (query_object : QueryObject) (ts : Z)
    (points : list PenetrationAsPointPair) (names1 names2 : list string) :
  length names1 = length names2 ->
  match mapM (λ p, encode_point_pair query_object ts p.1 p.2) (zip points names1),
        mapM (λ p, encode_point_pair query_object ts p.1 p.2) (zip points names2)
  with
  | Ok infos1, Ok infos2 => Forall2 same_except_body2_name infos1 infos2
  | Fail e1, Fail e2 => e1 = e2
  | _, _ => False
  end.
Proof.
  revert names1 names2.
  induction points as [|pair points IH]; intros [|n1 names1] [|n2 names2] Hlen;
    try discriminate; cbn [zip zip_with mapM]; try constructor.
  injection Hlen as Hlen. specialize (IH names1 names2 Hlen).
  cbn [fst snd].
  pose proof (encode_point_pair_any_name query_object ts pair n1 n2) as Hhead.
  destruct (encode_point_pair query_object ts pair n1) as [info1|e1],
           (encode_point_pair query_object ts pair n2) as [info2|e2];
    cbn [mbind result_bind];
    [| exfalso; exact Hhead | exfalso; exact Hhead | exact Hhead].
  fold (zip points names1). fold (zip points names2).
  destruct (mapM _ (zip points names1)) as [infos1|e1],
           (mapM _ (zip points names2)) as [infos2|e2];
    cbn [mbind result_bind mret result_ret]; try exact IH.
  constructor; [exact Hhead | exact IH].
Qed.

Lemma kept_body2_names_output (strict : bool) (context : Context)
    (results out : lcmt_contact_results_for_viz) :
  CalcContactResults strict context results = Ok out ->
  kept_body2_names (msg_num_point_pair_contacts out) out
    = kept_body2_names (msg_num_point_pair_contacts out) results.
Proof.
  intros H.
  pose proof (CalcContactResults_Ok _ _ _ _ H)
    as (_ & _ & _ & _ & _ & _ & _ & _ & Hlen & _ & _).
  rewrite CalcContactResults_pure in H.
  pose proof (encode_message_body2_names _ _ _ _ H) as Hnames.
  unfold kept_body2_names at 1.
  rewrite <- Hlen, resize_all.
  apply list_eq. intros i. rewrite list_lookup_fmap.
  destruct (msg_point_pair_contact_info out !! i) as [info|] eqn:Hi; cbn.
  - symmetry. apply Hnames, Hi.
  - symmetry. apply lookup_ge_None_2.
    unfold kept_body2_names. rewrite length_fmap, length_resize, <- Hlen.
    apply lookup_ge_None_1, Hi.
Qed.

(** X2.  Whatever the output message holds on entry, reachable or not, the
    call ends the same way: a failure is the same failure, and two returned
    messages have the same timestamp, counts and surface records and the same
    number of point-pair records, which agree in every field but
    [body2_name].  Calling again on the message just returned reproduces
    it. *)
Theorem output_buffer_overwritten (strict : bool) (context : Context)
    (results1 results2 : lcmt_contact_results_for_viz) :
  (forall e,
     CalcContactResults strict context results1 = Fail e ->
     CalcContactResults strict context results2 = Fail e) /\
  (forall out1,
     CalcContactResults strict context results1 = Ok out1 ->
     CalcContactResults strict context out1 = Ok out1 /\
     exists out2,
       CalcContactResults strict context results2 = Ok out2 /\
       msg_timestamp out2 = msg_timestamp out1 /\
       msg_num_point_pair_contacts out2 = msg_num_point_pair_contacts out1 /\
       msg_num_hydroelastic_contacts out2 = msg_num_hydroelastic_contacts out1 /\
       msg_hydroelastic_contacts out2 = msg_hydroelastic_contacts out1 /\
       Forall2 same_except_body2_name
         (msg_point_pair_contact_info out1) (msg_point_pair_contact_info out2)).
Proof.
  assert (Hpairs : forall ts points,
    match mapM (λ p, encode_point_pair (query_port context) ts p.1 p.2)
            (zip (take (Z.to_nat (static_cast_int (size points))) points)
               (kept_body2_names (static_cast_int (size points)) results1)),
          mapM (λ p, encode_point_pair (query_port context) ts p.1 p.2)
            (zip (take (Z.to_nat (static_cast_int (size points))) points)
               (kept_body2_names (static_cast_int (size points)) results2))
    with
    | Ok infos1, Ok infos2 => Forall2 same_except_body2_name infos1 infos2
    | Fail e1, Fail e2 => e1 = e2
    | _, _ => False
    end).
  { intros ts points. apply encode_pairs_any_names.
    unfold kept_body2_names. rewrite !length_fmap, !length_resize. reflexivity. }
  split.
  - intros e. rewrite !CalcContactResults_pure. unfold encode_message.
    destruct (compute_contacts strict (query_port context))
      as [[surfaces points]|e']; [|exact id].
    cbn [mbind result_bind fst snd].
    destruct (double_to_int64 _) as [ts|e']; [|exact id].
    cbn [mbind result_bind].
    destruct (static_cast_int (size points) <? 0); [exact id|].
    destruct (static_cast_int (size surfaces) <? 0); [exact id|].
    destruct (mapM encode_surface _) as [surfs|e']; [|exact id].
    cbn [mbind result_bind]. specialize (Hpairs ts points).
    destruct (mapM _ (zip _ (kept_body2_names _ results1))) as [i1|e1],
             (mapM _ (zip _ (kept_body2_names _ results2))) as [i2|e2];
      cbn [mbind result_bind]; try done.
    intros [= <-]. rewrite Hpairs. reflexivity.
  - intros out1 H1. split.
    + pose proof (kept_body2_names_output _ _ _ _ H1) as Hkept.
      pose proof (CalcContactResults_Ok _ _ _ _ H1)
        as (surfaces & points & Hc & _ & Hnp & _).
      rewrite CalcContactResults_pure in H1 |- *.
      transitivity (encode_message strict context results1); [|exact H1].
      unfold encode_message.
      rewrite Hc. cbn [mbind result_bind fst snd].
      rewrite <- Hnp, Hkept. reflexivity.
    + rewrite CalcContactResults_pure in H1. rewrite CalcContactResults_pure.
      unfold encode_message in *.
      destruct (compute_contacts strict (query_port context))
        as [[surfaces points]|e']; [|discriminate].
      cbn [mbind result_bind fst snd] in *.
      destruct (double_to_int64 _) as [ts|e']; [|discriminate].
      cbn [mbind result_bind] in *.
      destruct (static_cast_int (size points) <? 0); [discriminate|].
      destruct (static_cast_int (size surfaces) <? 0); [discriminate|].
      destruct (mapM encode_surface _) as [surfs|e']; [|discriminate].
      cbn [mbind result_bind] in *. specialize (Hpairs ts points).
      destruct (mapM _ (zip _ (kept_body2_names _ results1))) as [i1|e1],
               (mapM _ (zip _ (kept_body2_names _ results2))) as [i2|e2];
        cbn [mbind result_bind] in *; try done.
      injection H1 as <-. eexists. split; [reflexivity|].
      cbn [msg_timestamp msg_num_point_pair_contacts msg_num_hydroelastic_contacts
           msg_hydroelastic_contacts msg_point_pair_contact_info]. done.
Qed.

Lemma output_buffer_overwritten_witness :
  CalcContactResults false scenario_context scenario_fallback_out
    = Ok scenario_fallback_out /\
  exists out2,
    CalcContactResults false scenario_context stale_results = Ok out2 /\
    msg_timestamp out2 = msg_timestamp scenario_fallback_out /\
    msg_num_point_pair_contacts out2
      = msg_num_point_pair_contacts scenario_fallback_out /\
    msg_num_hydroelastic_contacts out2
      = msg_num_hydroelastic_contacts scenario_fallback_out /\
    msg_hydroelastic_contacts out2 = msg_hydroelastic_contacts scenario_fallback_out /\
    Forall2 same_except_body2_name
      (msg_point_pair_contact_info scenario_fallback_out)
      (msg_point_pair_contact_info out2).
Proof.
  apply (proj2 (output_buffer_overwritten false scenario_context
                  results_default stale_results)).
  vm_compute. reflexivity.
Defined.

(** X3.  [body2_name] of a returned point-pair record is whatever the output
    message held there on entry: the string of the record at the same index
    when the message had one, the empty string of a value-initialised record
    otherwise.  A buffer that was filled by other code leaks its strings into
    the message. *)
Theorem body2_name_carried_over (strict : bool) (context : Context)
    (results out : lcmt_contact_results_for_viz) (i : nat)
    (info : lcmt_point_pair_contact_info_for_viz) :
  CalcContactResults strict context results = Ok out ->
  msg_point_pair_contact_info out !! i = Some info ->
  info_body2_name info =
    match msg_point_pair_contact_info results !! i with
    | Some old => info_body2_name old
    | None => ""
    end.
Proof.
  intros H Hi.
  pose proof (CalcContactResults_Ok _ _ _ _ H)
    as (_ & _ & _ & _ & _ & _ & _ & _ & Hlen & _ & _).
  destruct (output_pair_inv _ _ _ _ _ _ H Hi) as (_ & _ & _ & _ & _ & Hkept & _).
  unfold kept_body2_names in Hkept. rewrite list_lookup_fmap in Hkept.
  assert (Hin : (i < Z.to_nat (msg_num_point_pair_contacts out))%nat).
  { rewrite <- Hlen. apply lookup_lt_is_Some_1. eauto. }
  destruct (msg_point_pair_contact_info results !! i) as [old|] eqn:Hold.
  - rewrite lookup_resize in Hkept;
      [|exact Hin | apply lookup_lt_is_Some_1; eauto].
    rewrite Hold in Hkept. cbn in Hkept. congruence.
  - rewrite lookup_resize_new in Hkept;
      [|apply lookup_ge_None_1, Hold | exact Hin].
    cbn in Hkept. congruence.
Qed.

Lemma body2_name_carried_over_witness :
  CalcContactResults false scenario_context stale_results = Ok stale_fallback_out /\
  forall info,
    msg_point_pair_contact_info stale_fallback_out !! 0%nat = Some info ->
    info_body2_name info = "old2".
Proof.
  split; [vm_compute; reflexivity|]. intros info Hi.
  apply (body2_name_carried_over false scenario_context stale_results
           stale_fallback_out 0%nat info).
  - vm_compute. reflexivity.
  - exact Hi.
Defined.

(** ** Surface records *)

Lemma to_string_inj (id1 id2 : GeometryId) :
  to_string id1 = to_string id2 -> id1 = id2.
Proof.
  unfold to_string. intros H.
  assert (Hparse : forall id,
            NilZero.int_of_string (NilZero.string_of_int (Z.to_int id))
              = Some (Z.to_int id)).
  { intros id. apply NilZero.isi; destruct id as [|p|p]; cbn; try discriminate;
      intros [= Hnil]; exact (DecimalPos.Unsigned.to_uint_nonnil p Hnil). }
  apply DecimalZ.to_int_inj.
  pose proof (Hparse id1) as H1. rewrite H, Hparse in H1. congruence.
Qed.

(** X4.  The two names of a returned surface record are "Id_" followed by
    the decimal form of the surface's two identifiers, and its centroid is the
    mesh centroid, copied; such names tell bodies apart: the two names of a
    record are equal only when the two identifiers are, and the first names of
    two records are equal only when the first identifiers are. *)
Theorem surface_names_identify_bodies (strict : bool) (context : Context)
    (results out : lcmt_contact_results_for_viz) (i : nat)
    (sm : lcmt_hydroelastic_contact_surface_for_viz) :
  CalcContactResults strict context results = Ok out ->
  msg_hydroelastic_contacts out !! i = Some sm ->
  exists surfaces points surface,
    compute_contacts strict (query_port context) = Ok (surfaces, points) /\
    surfaces !! i = Some surface /\
    surf_body1_name sm = "Id_" +:+ to_string (id_M surface) /\
    surf_body2_name sm = "Id_" +:+ to_string (id_N surface) /\
    surf_centroid_W sm
      = Double3 (vx (mesh_centroid (mesh_W surface)))
                (vy (mesh_centroid (mesh_W surface)))
                (vz (mesh_centroid (mesh_W surface))) /\
    (surf_body1_name sm = surf_body2_name sm <-> id_M surface = id_N surface) /\
    (forall k sm' surface',
       msg_hydroelastic_contacts out !! k = Some sm' ->
       surfaces !! k = Some surface' ->
       surf_body1_name sm = surf_body1_name sm' ->
       id_M surface = id_M surface').
Proof.
  intros H Hi.
  destruct (output_surface_inv _ _ _ _ _ _ H Hi)
    as (surfaces & points & surface & Hc & Hs & He).
  apply encode_surface_Ok in He as (_ & tq & _ & ->).
  exists surfaces, points, surface.
  cbn [surf_body1_name surf_body2_name surf_centroid_W].
  repeat (split; [first [assumption | reflexivity]|]). split.
  - split.
    + intros [= Hn]. apply to_string_inj, Hn.
    + intros ->. reflexivity.
  - intros k sm' surface' Hk Hs' Hname.
    destruct (output_surface_inv _ _ _ _ _ _ H Hk)
      as (surfaces' & points' & surface'' & Hc' & Hs'' & He').
    rewrite Hc in Hc'. injection Hc' as <- <-.
    rewrite Hs' in Hs''. injection Hs'' as <-.
    apply encode_surface_Ok in He' as (_ & tq' & _ & ->).
    cbn [surf_body1_name] in Hname. injection Hname as Hn.
    apply to_string_inj, Hn.
Qed.

Lemma surface_names_identify_bodies_witness :
  exists sm surfaces points surface,
    msg_hydroelastic_contacts scenario_strict_out !! 0%nat = Some sm /\
    compute_contacts true (query_port scenario_context) = Ok (surfaces, points) /\
    surfaces !! 0%nat = Some surface /\
    surf_body1_name sm = "Id_" +:+ to_string (id_M surface) /\
    surf_body2_name sm = "Id_" +:+ to_string (id_N surface).
Proof.
  destruct (surface_names_identify_bodies true scenario_context results_default
              scenario_strict_out 0%nat
              (SurfaceMsg "Id_7" "Id_12"
                 (Double3 (1 / 3)%float (1 / 3)%float 0%float)
                 (Double3 1%float 0%float 0%float)
                 (Double3 0%float 0%float 1%float) 1
                 [TriMsg (Double3 0%float 0%float 0%float)
                    (Double3 1%float 0%float 0%float)
                    (Double3 0%float 1%float 0%float)
                    10%float 20%float 30%float]
                 1
                 [QuadMsg (Double3 (1 / 3)%float (1 / 3)%float 0%float)
                    (Double3 0%float 0.2%float 0%float)
                    (Double3 0%float (-0.2)%float 0%float)]))
    as (surfaces & points & surface & Hc & Hs & H1 & H2 & _).
  - vm_compute. reflexivity.
  - vm_compute. reflexivity.
  - eexists _, surfaces, points, surface.
    split; [vm_compute; reflexivity|]. done.
Defined.

(** X7.  A surface record is a function of its contact surface alone: two
    calls, whatever their modes, times, other contacts and output buffers,
    that encode the same surface at some index produce the same record
    there. *)
Theorem surface_record_of_its_surface_only
    (strict1 strict2 : bool) (context1 context2 : Context)
    (results1 results2 out1 out2 : lcmt_contact_results_for_viz)
    (surfaces1 surfaces2 : list ContactSurface)
    (points1 points2 : list PenetrationAsPointPair)
    (i1 i2 : nat) (surface : ContactSurface)
    (sm1 sm2 : lcmt_hydroelastic_contact_surface_for_viz) :
  CalcContactResults strict1 context1 results1 = Ok out1 ->
  CalcContactResults strict2 context2 results2 = Ok out2 ->
  compute_contacts strict1 (query_port context1) = Ok (surfaces1, points1) ->
  compute_contacts strict2 (query_port context2) = Ok (surfaces2, points2) ->
  surfaces1 !! i1 = Some surface ->
  surfaces2 !! i2 = Some surface ->
  msg_hydroelastic_contacts out1 !! i1 = Some sm1 ->
  msg_hydroelastic_contacts out2 !! i2 = Some sm2 ->
  sm1 = sm2.
Proof.
  intros H1 H2 Hc1 Hc2 Hs1 Hs2 Hm1 Hm2.
  destruct (output_surface_inv _ _ _ _ _ _ H1 Hm1)
    as (sf1 & pt1 & s1 & Hc1' & Hs1' & He1).
  destruct (output_surface_inv _ _ _ _ _ _ H2 Hm2)
    as (sf2 & pt2 & s2 & Hc2' & Hs2' & He2).
  rewrite Hc1 in Hc1'. injection Hc1' as <- <-.
  rewrite Hc2 in Hc2'. injection Hc2' as <- <-.
  rewrite Hs1 in Hs1'. injection Hs1' as <-.
  rewrite Hs2 in Hs2'. injection Hs2' as <-.
  congruence.
Qed.

Lemma surface_record_of_its_surface_only_witness :
  exists sm1 sm2,
    msg_hydroelastic_contacts scenario_strict_out !! 0%nat = Some sm1 /\
    msg_hydroelastic_contacts scenario_fallback_out !! 0%nat = Some sm2 /\
    sm1 = sm2.
Proof.
  eexists. eexists. split; [reflexivity|]. split; [reflexivity|].
  apply (surface_record_of_its_surface_only true false
           scenario_context scenario_context results_default results_default
           scenario_strict_out scenario_fallback_out
           [scenario_B_surface] [scenario_B_surface] [] [scenario_C_pair]
           0%nat 0%nat scenario_B_surface).
  - vm_compute. reflexivity.
  - vm_compute. reflexivity.
  - reflexivity.
  - reflexivity.
  - reflexivity.
  - reflexivity.
  - reflexivity.
  - reflexivity.
Defined.

(** ** One step of each loop *)

(** X5.  One step of the surface loop replaces record [i] by the encoding of
    surface [i], in which nothing of the record's earlier content is left,
    and changes nothing else: the other surface records, the point-pair
    records, the timestamp and the two counts stay as they were, and no array
    changes its length. *)
Theorem surface_body_frame (surfaces : list ContactSurface) (i : Z)
    (msg msg' : lcmt_contact_results_for_viz) :
  surface_body surfaces i msg = Ok msg' ->
  exists surface sm,
    (Z.to_nat i < length (msg_hydroelastic_contacts msg))%nat /\
    surfaces !! Z.to_nat i = Some surface /\
    encode_surface surface = Ok sm /\
    msg_hydroelastic_contacts msg'
      = <[Z.to_nat i := sm]> (msg_hydroelastic_contacts msg) /\
    msg_point_pair_contact_info msg' = msg_point_pair_contact_info msg /\
    msg_timestamp msg' = msg_timestamp msg /\
    msg_num_point_pair_contacts msg' = msg_num_point_pair_contacts msg /\
    msg_num_hydroelastic_contacts msg' = msg_num_hydroelastic_contacts msg.
Proof.
  intros H.
  assert (Hi : 0 <= i /\ is_Some (msg_hydroelastic_contacts msg !! Z.to_nat i)).
  { unfold surface_body in H. apply bind_Ok in H as (old & Hold & _).
    apply vec_at_Ok in Hold as [Hi Hold]. eauto. }
  destruct Hi as [Hi [old Hold]].
  replace msg with (set_msg_hydroelastic_contacts (msg_hydroelastic_contacts msg) msg)
    in H by (destruct msg; reflexivity).
  rewrite <- (Z2Nat.id i Hi) in H.
  rewrite surface_body_spec, Hold in H.
  apply bind_Ok in H as (sm & Hsm & [= <-]).
  apply bind_Ok in Hsm as (surface & Hsurface & He).
  apply vec_at_Ok in Hsurface as [_ Hsurface]. rewrite Nat2Z.id in Hsurface.
  exists surface, sm.
  split; [apply lookup_lt_is_Some_1; eauto|]. done.
Qed.

Lemma surface_body_frame_witness :
  exists surface sm,
    (Z.to_nat 0 < length [surface_default])%nat /\
    [scenario_B_surface] !! Z.to_nat 0 = Some surface /\
    encode_surface surface = Ok sm /\
    msg_hydroelastic_contacts scenario_strict_out = <[Z.to_nat 0 := sm]> [surface_default] /\
    msg_point_pair_contact_info scenario_strict_out = [] /\
    msg_timestamp scenario_strict_out = 250000 /\
    msg_num_point_pair_contacts scenario_strict_out = 0 /\
    msg_num_hydroelastic_contacts scenario_strict_out = 1.
Proof.
  apply (surface_body_frame [scenario_B_surface] 0
           (ResultsMsg 250000 0 [] 1 [surface_default]) scenario_strict_out).
  vm_compute. reflexivity.
Defined.

(** X6.  One step of the triangle loop writes the triangle record and the
    quadrature record at [j] and nothing else: the names, centroid, force,
    moment and the two counts of the surface record, every other triangle and
    quadrature record, and the lengths of both arrays stay as they were. *)
Theorem triangle_body_frame (mesh : TriangleSurfaceMesh) (field : MeshFieldLinear)
    (j : Z) (sm sm' : lcmt_hydroelastic_contact_surface_for_viz) :
  triangle_body mesh field j sm = Ok sm' ->
  (surf_body1_name sm' = surf_body1_name sm /\
   surf_body2_name sm' = surf_body2_name sm /\
   surf_centroid_W sm' = surf_centroid_W sm /\
   surf_force_C_W sm' = surf_force_C_W sm /\
   surf_moment_C_W sm' = surf_moment_C_W sm /\
   surf_num_triangles sm' = surf_num_triangles sm /\
   surf_num_quadrature_points sm' = surf_num_quadrature_points sm) /\
  (length (surf_triangles sm') = length (surf_triangles sm) /\
   length (surf_quadrature_point_data sm')
     = length (surf_quadrature_point_data sm)) /\
  (forall k, k <> Z.to_nat j ->
     surf_triangles sm' !! k = surf_triangles sm !! k /\
     surf_quadrature_point_data sm' !! k = surf_quadrature_point_data sm !! k).
Proof.
  unfold triangle_body. intros H.
  apply bind_Ok in H as (tri & _ & H). apply bind_Ok in H as (quad & _ & H).
  apply bind_Ok in H as (face & _ & H).
  apply bind_Ok in H as (vA & _ & H). apply bind_Ok in H as (vB & _ & H).
  apply bind_Ok in H as (vC & _ & H).
  apply bind_Ok in H as (pA & _ & H). apply bind_Ok in H as (pB & _ & H).
  apply bind_Ok in H as (pC & _ & [= <-]).
  cbn [surf_body1_name surf_body2_name surf_centroid_W surf_force_C_W
       surf_moment_C_W surf_num_triangles surf_num_quadrature_points
       surf_triangles surf_quadrature_point_data
       set_surf_quadrature_point_data set_surf_triangles].
  split; [done|]. split.
  - rewrite !length_insert. done.
  - intros k Hk. split; apply list_lookup_insert_ne; congruence.
Qed.

Lemma triangle_body_frame_witness :
  exists sm',
    triangle_body scenario_B_mesh (e_MN scenario_B_surface) 0
      (SurfaceMsg "a" "b" zero3 zero3 zero3 1 [tri_default] 1 [quad_default])
      = Ok sm' /\
    surf_body1_name sm' = "a" /\ surf_body2_name sm' = "b" /\
    length (surf_triangles sm') = 1%nat.
Proof.
  eexists. split; [vm_compute; reflexivity|].
  pose proof (triangle_body_frame scenario_B_mesh (e_MN scenario_B_surface) 0
                (SurfaceMsg "a" "b" zero3 zero3 zero3 1 [tri_default] 1 [quad_default])
                _ eq_refl) as [(H1 & H2 & _) [(Hl & _) _]].
  split; [exact H1|]. split; [exact H2 | exact Hl].
Defined.

(** * The stepping loop of the hydroelastic example *)

Lemma SFcompare_refl (x y : spec_float) (c : comparison) :
  SFcompare x y = Some c -> SFcompare y y = Some Eq.
Proof.
  destruct y as [s| s | |s m e]; destruct x as [s'|s'| |s' m' e'];
    cbn; try discriminate; intros _; try reflexivity;
    destruct s; try reflexivity;
    rewrite Z.compare_refl, ?Pos.compare_cont_refl; reflexivity.
Qed.

Lemma float_ltb_leb (x y : double) :
  (x <? y)%float = true -> (x <=? y)%float = true.
Proof.
  rewrite FloatAxioms.ltb_spec, FloatAxioms.leb_spec. unfold SFltb, SFleb.
  destruct (SFcompare (Prim2SF x) (Prim2SF y)) as [[| |]|]; done.
Qed.

Lemma float_ltb_leb_refl (x y : double) :
  (x <? y)%float = true -> (y <=? y)%float = true.
Proof.
  rewrite FloatAxioms.ltb_spec, FloatAxioms.leb_spec. unfold SFltb, SFleb.
  destruct (SFcompare (Prim2SF x) (Prim2SF y)) as [c|] eqn:Hc; [|done].
  intros _. rewrite (SFcompare_refl _ _ _ Hc). reflexivity.
Qed.

Lemma float_leb_not_ltb (x y : double) :
  (x <=? y)%float = true -> (x <? y)%float = false -> (x =? y)%float = true.
Proof.
  rewrite FloatAxioms.ltb_spec, FloatAxioms.leb_spec, FloatAxioms.eqb_spec.
  unfold SFltb, SFleb, SFeqb.
  destruct (SFcompare (Prim2SF x) (Prim2SF y)) as [[| |]|]; done.
Qed.

Lemma next_time_within_limit (simulation_sec time : double) :
  (time <? simulation_sec)%float = true ->
  (next_time simulation_sec time <=? simulation_sec)%float = true /\
  (next_time simulation_sec time = simulation_sec \/
   next_time simulation_sec time = (time + kStep)%float).
Proof.
  intros Hlt. unfold next_time, std_min.
  destruct (time + kStep <? simulation_sec)%float eqn:Hstep.
  - split; [apply float_ltb_leb, Hstep | right; reflexivity].
  - split; [apply (float_ltb_leb_refl time), Hlt | left; reflexivity].
Qed.

(** X8.  Whatever the simulator does, the loop never asks it for a time
    beyond [FLAGS_simulation_sec]: every boundary passed to [AdvanceTo], in
    any number of iterations, is at most the limit. *)
Theorem requested_times_within_limit {S : Type} (simulator : Simulator S)
    (simulation_sec : double) (fuel : nat) (s : S) :
  Forall (λ boundary, (boundary <=? simulation_sec)%float = true)
         (requested_times simulator simulation_sec fuel s).
Proof.
  revert s. induction fuel as [|fuel IH]; intros s; cbn [requested_times].
  - destruct (sim_get_time simulator s <? simulation_sec)%float; constructor.
  - destruct (sim_get_time simulator s <? simulation_sec)%float eqn:Hlt;
      [|constructor].
    constructor; [apply next_time_within_limit, Hlt|].
    destruct (sim_AdvanceTo simulator _ s) as [s'|e]; [apply IH | constructor].
Qed.

(** X9.  With a simulator that stops exactly at the boundary it is given, a
    loop that starts at or before [FLAGS_simulation_sec] and ends normally
    ends with the simulation time equal to [FLAGS_simulation_sec]: the last
    step is cut to the limit. *)
Theorem stepping_loop_ends_at_limit {S : Type} (simulator : Simulator S)
    (simulation_sec : double) (fuel : nat) (s s' : S) :
  (forall boundary s0 s1,
     sim_AdvanceTo simulator boundary s0 = Ok s1 ->
     sim_get_time simulator s1 = boundary) ->
  (sim_get_time simulator s <=? simulation_sec)%float = true ->
  stepping_loop simulator simulation_sec fuel s = Some (Ok s') ->
  (sim_get_time simulator s' =? simulation_sec)%float = true.
Proof.
  intros Hexact. revert s.
  induction fuel as [|fuel IH]; intros s Hle; cbn [stepping_loop];
    destruct (sim_get_time simulator s <? simulation_sec)%float eqn:Hlt;
    try discriminate.
  - intros [= <-]. apply float_leb_not_ltb; assumption.
  - destruct (sim_AdvanceTo simulator _ s) as [s1|e] eqn:Hadv; [|discriminate].
    apply IH. rewrite (Hexact _ _ _ Hadv).
    apply next_time_within_limit, Hlt.
  - intros [= <-]. apply float_leb_not_ltb; assumption.
Qed.

Lemma stepping_loop_ends_at_limit_witness :
  stepping_loop exact_simulator 0.35%float 10 0%float = Some (Ok 0.35%float) /\
  (sim_get_time exact_simulator 0.35%float =? 0.35)%float = true.
Proof.
  split; [vm_compute; reflexivity|].
  apply (stepping_loop_ends_at_limit exact_simulator 0.35%float 10 0%float).
  - intros boundary s0 s1 [= <-]. reflexivity.
  - vm_compute. reflexivity.
  - vm_compute. reflexivity.
Defined.
